(** * ChessU rewards server: a shallow embedding of [server/server.js]

    The server answers chess-puzzle solutions with ecash rewards.  This file
    embeds the parts of [server.js] that decide its observable behaviour:

    - the per-client rate limiter ([checkRateLimit]) and its hourly sweep;
    - the comparison of a submitted move list with the known answer, which
      the code performs on the [JSON.stringify] images of both lists;
    - the seven HTTP handlers, as programs that call the external wallet
      collaborator and may be interrupted by its failures.

    JavaScript strings are sequences of UTF-16 code units, numbers that the
    handlers make (timestamps, balances, satoshi amounts) are integers; a
    number that arrives in a request body may be any number of JSON. *)

From Stdlib Require Import Strings.String Strings.Ascii.
From stdpp Require Import gmap list fin_maps pretty.

Set Warnings "-register-all".
Open Scope Z_scope.

(** ** JavaScript values *)

(** A JavaScript string: its UTF-16 code units, in order. *)
Abbreviation jsstring := (list N).

(** The code units of an ASCII literal of the source text. *)
Definition lit (s : string) : jsstring :=
  (fun a => N_of_ascii a) <$> list_ascii_of_string s.

(** The values a parsed JSON body is made of, plus [undefined], which is what
    reading an absent property gives.  A number is written in one of three
    ways: [JNum z] is the integer [z] (below [10^21] in absolute value, which
    JavaScript prints as a plain numeral); [JDec negative significand
    exponent] is any other finite number, positive or negative
    [significand * 10^exponent], where the significand holds the digits of
    the shortest decimal that reads back as the number ([0.5] is
    [JDec false 5 (-1)], [1.5] is [JDec false 15 (-1)]); [JInf negative] is
    what a numeral beyond the range of a double parses to.  The fields of
    [JObj] are the object's own properties in enumeration order. *)
Inductive jsval : Type :=
| JUndefined
| JNull
| JBool (b : bool)
| JNum (z : Z)
| JStr (s : jsstring)
| JArr (elems : list jsval)
| JObj (fields : list (jsstring * jsval))
| JDec (negative : bool) (significand : positive) (exponent : Z)
| JInf (negative : bool).

(** [!!v] of JavaScript: everything is truthy except [undefined], [null],
    [false], [0] and the empty string. *)
Definition truthy (v : jsval) : bool :=
  match v with
  | JUndefined | JNull => false
  | JBool b => b
  | JNum z => negb (z =? 0)
  | JStr s => match s with [] => false | _ => true end
  | JArr _ | JObj _ => true
  | JDec _ _ _ | JInf _ => true
  end.

(** [Array.isArray(v)]. *)
Definition Array_isArray (v : jsval) : bool :=
  match v with JArr _ => true | _ => false end.

(** Reading property [k] of an association list of own properties. *)
Fixpoint lookup_field (k : jsstring) (fields : list (jsstring * jsval)) : jsval :=
  match fields with
  | [] => JUndefined
  | (k', v) :: rest => if decide (k' = k) then v else lookup_field k rest
  end.

(** [v.k] on a body delivered by the JSON body parser (an object or an array;
    a named property of an array of parsed JSON is [undefined]). *)
Definition get_prop (v : jsval) (k : string) : jsval :=
  match v with
  | JObj fields => lookup_field (lit k) fields
  | _ => JUndefined
  end.

(** [a === b] where [a] is a string. *)
Definition strict_eq_str (a : jsstring) (b : jsval) : bool :=
  match b with
  | JStr s => bool_decide (a = s)
  | _ => false
  end.

(** ** [JSON.stringify] *)

(** [Number.prototype.toString] on an integer: its decimal numeral. *)
Definition Number_toString (z : Z) : jsstring := lit (pretty z).

(** The same number with as few digits as possible: zeros at the end of
    the significand go into the exponent. *)
Fixpoint fewest_digits (fuel : nat) (significand : positive) (exponent : Z) : positive * Z :=
  match fuel with
  | O => (significand, exponent)
  | S fuel' =>
      if Z.pos significand mod 10 =? 0
      then fewest_digits fuel' (Z.to_pos (Z.pos significand / 10)) (exponent + 1)
      else (significand, exponent)
  end.

(** [Number::toString] on the other finite numbers.  With [k] the number of
    digits of the significand, as small as possible, and [n = k + exponent]
    the place of the decimal point counted from the first digit, the
    standard prints: the digits followed by [n - k] zeros when
    [k <= n <= 21]; the digits with a point after the first [n] of them when
    [0 < n <= 21]; [0.], [-n] zeros and the digits when [-6 < n <= 0]; and
    otherwise the first digit, a point and the other digits if there are
    any, [e], the sign of [n - 1] and its numeral. *)
Definition Number_toString_digits (significand : positive) (exponent : Z) : jsstring :=
  let '(s, e) := fewest_digits (Pos.size_nat significand) significand exponent in
  let digits := lit (pretty (N.pos s)) in
  let k := Z.of_nat (length digits) in
  let n := k + e in
  if (k <=? n) && (n <=? 21) then
    digits ++ replicate (Z.to_nat (n - k)) 48%N
  else if (0 <? n) && (n <=? 21) then
    take (Z.to_nat n) digits ++ [46%N] ++ drop (Z.to_nat n) digits
  else if (-6 <? n) && (n <=? 0) then
    lit "0." ++ replicate (Z.to_nat (- n)) 48%N ++ digits
  else
    let e := n - 1 in
    let e_sign := if e <? 0 then lit "-" else lit "+" in
    let e_digits := lit (pretty (Z.to_N (Z.abs e))) in
    if k =? 1 then digits ++ lit "e" ++ e_sign ++ e_digits
    else take 1 digits ++ [46%N] ++ drop 1 digits ++ lit "e" ++ e_sign ++ e_digits.

Definition Number_toString_dec (negative : bool) (significand : positive)
    (exponent : Z) : jsstring :=
  (if negative then lit "-" else []) ++ Number_toString_digits significand exponent.

Definition is_high_surrogate (c : N) : bool :=
  ((0xD800 <=? c) && (c <=? 0xDBFF))%N.
Definition is_low_surrogate (c : N) : bool :=
  ((0xDC00 <=? c) && (c <=? 0xDFFF))%N.

Definition hex_digit (n : N) : N :=
  (if n <? 10 then 48 + n else 87 + n)%N.

(** [UnicodeEscape]: backslash, [u] and four lowercase hexadecimal digits. *)
Definition UnicodeEscape (c : N) : jsstring :=
  [92; 117; hex_digit (c / 4096 mod 16); hex_digit (c / 256 mod 16);
   hex_digit (c / 16 mod 16); hex_digit (c mod 16)]%N.

(** The text [QuoteJSONString] emits for one code unit that is not part of a
    surrogate pair: the two-character escapes of the table, a [\uXXXX]
    escape for the other control characters and for lone surrogates, the
    code unit itself otherwise. *)
Definition quote_unit (c : N) : jsstring :=
  (if c =? 8 then [92; 98]
   else if c =? 9 then [92; 116]
   else if c =? 10 then [92; 110]
   else if c =? 12 then [92; 102]
   else if c =? 13 then [92; 114]
   else if c =? 34 then [92; 34]
   else if c =? 92 then [92; 92]
   else if (c <? 32) || is_high_surrogate c || is_low_surrogate c
        then UnicodeEscape c
   else [c])%N.

(** The characters between the two quotes: a high surrogate followed by a
    low surrogate is one code point above the basic plane and is copied as
    it is; every other code unit goes through [quote_unit]. *)
Fixpoint quote_body (s : jsstring) : jsstring :=
  match s with
  | [] => []
  | c :: rest =>
      match rest with
      | d :: rest' =>
          if is_high_surrogate c && is_low_surrogate d
          then c :: d :: quote_body rest'
          else quote_unit c ++ quote_body rest
      | [] => quote_unit c
      end
  end.

Definition QuoteJSONString (s : jsstring) : jsstring :=
  [34%N] ++ quote_body s ++ [34%N].

(** Elements separated by commas. *)
Fixpoint join_comma (parts : list jsstring) : jsstring :=
  match parts with
  | [] => []
  | [p] => p
  | p :: rest => p ++ [44%N] ++ join_comma rest
  end.

(** [SerializeJSONProperty]: [None] stands for [undefined] (the property is
    left out of an object and printed as [null] inside an array).  A number
    that is not finite is printed as [null]. *)
Fixpoint SerializeJSONProperty (v : jsval) : option jsstring :=
  match v with
  | JUndefined => None
  | JNull => Some (lit "null")
  | JBool b => Some (if b then lit "true" else lit "false")
  | JNum z => Some (Number_toString z)
  | JStr s => Some (QuoteJSONString s)
  | JArr elems =>
      Some ([91%N] ++
            join_comma (map (fun e => default (lit "null") (SerializeJSONProperty e)) elems)
            ++ [93%N])
  | JObj fields =>
      Some ([123%N] ++
            join_comma
              (omap (fun kv => (fun t => QuoteJSONString (fst kv) ++ [58%N] ++ t)
                                 <$> SerializeJSONProperty (snd kv)) fields)
            ++ [125%N])
  | JDec negative significand exponent =>
      Some (Number_toString_dec negative significand exponent)
  | JInf _ => Some (lit "null")
  end.

Definition JSON_stringify (v : jsval) : option jsstring := SerializeJSONProperty v.

(** The JSON text of an array element: [null] where the element has none. *)
Definition element_text (e : jsval) : jsstring :=
  default (lit "null") (SerializeJSONProperty e).

(** A text that does not begin like a quoted string, nor like the end of an
    array. *)
Definition not_a_string_start (t : jsstring) : Prop :=
  exists c rest, t = c :: rest /\ c <> 34%N /\ c <> 93%N.

(** *** Reading a quoted string back

    The inverse of [QuoteJSONString] on the text after the opening quote:
    the string read up to the first unescaped quote, and the text that
    follows it.  It serves to show that different strings have different
    JSON texts. *)

(** The value of a lowercase hexadecimal digit. *)
Definition unhex (h : N) : N := (if h <? 58 then h - 48 else h - 87)%N.

(** The character a two-character escape stands for. *)
Definition unescape (e : N) : N :=
  (if e =? 98 then 8
   else if e =? 116 then 9
   else if e =? 110 then 10
   else if e =? 102 then 12
   else if e =? 114 then 13
   else e)%N.

(** [unquote_body t]: the string that ends at the first unescaped quote of
    [t], with the rest of [t]. *)
Fixpoint unquote_body (t : jsstring) : option (jsstring * jsstring) :=
  match t with
  | [] => None
  | c :: t1 =>
      if (c =? 34)%N then Some ([], t1)
      else if (c =? 92)%N then
        match t1 with
        | e :: t2 =>
            if (e =? 117)%N then
              match t2 with
              | h1 :: h2 :: h3 :: h4 :: t3 =>
                  match unquote_body t3 with
                  | Some (s, r) =>
                      Some ((4096 * unhex h1 + 256 * unhex h2 + 16 * unhex h3 + unhex h4)%N :: s, r)
                  | None => None
                  end
              | _ => None
              end
            else
              match unquote_body t2 with
              | Some (s, r) => Some (unescape e :: s, r)
              | None => None
              end
        | [] => None
        end
      else
        match unquote_body t1 with
        | Some (s, r) => Some (c :: s, r)
        | None => None
        end
  end.

(** ** Configuration *)

Record Config : Type := {
  testMint : jsstring;
  mainMint : jsstring;
  activeMode : jsstring;
  dbPath : jsstring;
  puzzleReward : Z;       (* sats per puzzle solved *)
  rateLimitSeconds : Z    (* seconds between solves per IP *)
}.

(** The [config] object of the source; [ACTIVE_MODE] is the environment
    variable of that name ([None] when unset, and an empty value is falsy
    like an unset one). *)
Definition config (ACTIVE_MODE : option jsstring) : Config := {|
  testMint := lit "https://nofees.testnut.cashu.space";
  mainMint := lit "https://mint.minibits.cash/Bitcoin";
  activeMode := match ACTIVE_MODE with
                | Some (c :: m) => c :: m
                | _ => lit "test"
                end;
  dbPath := lit "/app/data/wallet.db";
  puzzleReward := 10;
  rateLimitSeconds := 5
|}.

Definition activeMint (cfg : Config) : jsstring :=
  if bool_decide (activeMode cfg = lit "main") then mainMint cfg else testMint cfg.

(** ** Rate limiting for puzzle solving *)

(** A client key is [req.ip || req.connection.remoteAddress]: a string, or
    [undefined] ([None]) when neither is known.  A [Map] accepts both. *)
Abbreviation ClientKey := (option jsstring).

(** [rateLimitMap]: IP -> lastSolveTime (milliseconds since the epoch). *)
Abbreviation RateLimitMap := (gmap ClientKey Z).

Record RateLimitCheck : Type := {
  allowed : bool;
  message : option jsstring
}.

(** [Math.ceil(x / d)] for integers [x] and a positive integer [d]. *)
Definition Math_ceil_div (x d : Z) : Z := - ((- x) `div` d).

(** [!lastSolve]: true when the map has no entry, and also when the entry is
    the number [0]. *)
Definition not_lastSolve (lastSolve : option Z) : bool :=
  match lastSolve with
  | None => true
  | Some t => t =? 0
  end.

Definition rateLimitMs (cfg : Config) : Z := rateLimitSeconds cfg * 1000.

Definition secondsRemaining (cfg : Config) (timeSinceLastSolve : Z) : Z :=
  Math_ceil_div (rateLimitMs cfg - timeSinceLastSolve) 1000.

(** The template literal of the denial.  Its first two code units are the
    ones the source file has in front of [Slow down!]. *)
Definition slow_down_message (cfg : Config) (secs : Z) : jsstring :=
  [226; 179]%N ++ lit " Slow down! You can only solve 1 puzzle every "
  ++ Number_toString (rateLimitSeconds cfg)
  ++ lit " seconds. Try again in "
  ++ Number_toString secs
  ++ lit " second" ++ (if 1 <? secs then lit "s" else []) ++ lit ".".

(** [checkRateLimit(ip)], with the clock reading [now = Date.now()] and the
    shared map passed in and out. *)
Definition checkRateLimit (cfg : Config) (now : Z) (ip : ClientKey)
    (rateLimitMap : RateLimitMap) : RateLimitCheck * RateLimitMap :=
  let lastSolve := rateLimitMap !! ip in
  if not_lastSolve lastSolve then
    ({| allowed := true; message := None |}, <[ip := now]> rateLimitMap)
  else
    let timeSinceLastSolve := now - default 0 lastSolve in
    if timeSinceLastSolve <? rateLimitMs cfg then
      ({| allowed := false;
          message := Some (slow_down_message cfg (secondsRemaining cfg timeSinceLastSolve)) |},
       rateLimitMap)
    else
      (* Rate limit passed *)
      ({| allowed := true; message := None |}, <[ip := now]> rateLimitMap).

(** The outcome of the two allowing branches: the attempt is let through
    and [now] becomes the client's entry. *)
Definition allow_and_record (now : Z) (ip : ClientKey) (rateLimitMap : RateLimitMap)
  : RateLimitCheck * RateLimitMap :=
  ({| allowed := true; message := None |}, <[ip := now]> rateLimitMap).

(** The test of the clean-up loop: [now - lastSolve > rateLimitMs * 10]. *)
Definition stale (cfg : Config) (now lastSolve : Z) : bool :=
  rateLimitMs cfg * 10 <? now - lastSolve.

(** One turn of the clean-up loop: [if (now - lastSolve > rateLimitMs * 10)
    rateLimitMap.delete(ip)]. *)
Definition cleanup_entry (cfg : Config) (now : Z)
    (rateLimitMap : RateLimitMap) (entry : ClientKey * Z) : RateLimitMap :=
  let '(ip, lastSolve) := entry in
  if stale cfg now lastSolve  (* Keep for 10x the rate limit *)
  then delete ip rateLimitMap
  else rateLimitMap.

(** The body of the hourly [setInterval] callback: the loop runs over the
    entries the map has when it starts, deleting from the map as it goes. *)
Definition cleanup (cfg : Config) (now : Z) (rateLimitMap : RateLimitMap) : RateLimitMap :=
  foldl (cleanup_entry cfg now) rateLimitMap (map_to_list rateLimitMap).

(** ** The puzzle database *)

(** One record of [easy_puzzles.json], as the conversion script writes it. *)
Record Puzzle : Type := {
  id : jsstring;
  fen : jsstring;
  solution : list jsstring;
  rating : Z;
  themes : list jsstring
}.

(** [arr.filter((x, index) => p(x, index))], the callback seeing each
    element with its 0-based index. *)
Fixpoint filter_from {A : Type} (p : A -> nat -> bool) (index : nat) (arr : list A) : list A :=
  match arr with
  | [] => []
  | x :: rest =>
      if p x index then x :: filter_from p (S index) rest
      else filter_from p (S index) rest
  end.

Definition Array_filter {A : Type} (p : A -> nat -> bool) (arr : list A) : list A :=
  filter_from p 0%nat arr.

(** User's moves are at odd indices (1, 3, 5...) since opponent moves first
    at index 0. *)
Definition userMovesInSolution (puzzle : Puzzle) : list jsstring :=
  Array_filter (fun _ index => (index mod 2 =? 1)%nat) (solution puzzle).

(** [JSON.stringify(moves) === JSON.stringify(userMovesInSolution)]. *)
Definition isCorrect (moves : jsval) (puzzle : Puzzle) : bool :=
  bool_decide (JSON_stringify moves = JSON_stringify (JArr (JStr <$> userMovesInSolution puzzle))).

(** [puzzlesData.find(p => p.id === puzzleId)]. *)
Definition find_puzzle (puzzlesData : list Puzzle) (puzzleId : jsval) : option Puzzle :=
  List.find (fun p => strict_eq_str (id p) puzzleId) puzzlesData.

Definition jsstrings (l : list jsstring) : jsval := JArr (JStr <$> l).

(** ** The external collaborators *)

(** What a rejected promise or a [throw] carries: an [Error] and its
    [message]. *)
Record Error : Type := { err_message : jsstring }.

(** A mint quote as [createMintQuote] returns it. *)
Record MintQuote : Type := { quote : jsstring; request : jsstring }.

(** The calls the handlers make outside this program: the wallet manager
    ([manager.wallet], [manager.quotes]), the token encoder and the QR-code
    renderer.  A token is opaque to the server. *)
Inductive call : Type :=
| getBalances
| send (mintUrl : jsstring) (amount : Z)
| receive (token : jsval)
| createMintQuote (mintUrl : jsstring) (amount : jsval)
| redeemMintQuote (mintUrl : jsstring) (quoteId : jsstring)
| getEncodedToken (token : jsval)
| QRCode_toDataURL (text : jsstring).

Definition result (c : call) : Type :=
  match c with
  | getBalances => gmap jsstring Z
  | send _ _ => jsval
  | receive _ => unit
  | createMintQuote _ _ => MintQuote
  | redeemMintQuote _ _ => unit
  | getEncodedToken _ => jsstring
  | QRCode_toDataURL _ => jsstring
  end.

(** A program that interacts with the collaborators: it ends with a value,
    or makes a call and goes on with what comes back, a result or a
    failure. *)
Inductive prog (R : Type) : Type :=
| Ret (r : R)
| Call (c : call) (k : Error + result c -> prog R).
Arguments Ret {R} r.
Arguments Call {R} c k.

Fixpoint prog_bind {A B : Type} (p : prog A) (f : A -> prog B) : prog B :=
  match p with
  | Ret a => f a
  | Call c k => Call c (fun o => prog_bind (k o) f)
  end.

(** The body of a request handler: it reads and writes the shared
    [rateLimitMap], calls collaborators, and ends with a value or with a
    thrown error. The map survives a throw. *)
Definition M (R : Type) : Type :=
  RateLimitMap -> prog ((Error + R) * RateLimitMap).

Definition ret {R : Type} (r : R) : M R := fun st => Ret (inr r, st).

Definition throw {R : Type} (e : Error) : M R := fun st => Ret (inl e, st).

Definition bind {A B : Type} (m : M A) (f : A -> M B) : M B :=
  fun st =>
    prog_bind (m st) (fun r =>
      match r with
      | (inl e, st') => Ret (inl e, st')
      | (inr a, st') => f a st'
      end).

(** [await c]: the call's result, or its failure thrown here. *)
Definition await (c : call) : M (result c) :=
  fun st => Call c (fun o => Ret (o, st)).

(** A synchronous read-modify-write of the shared map. *)
Definition with_rateLimitMap {R : Type} (f : RateLimitMap -> R * RateLimitMap) : M R :=
  fun st => let '(r, st') := f st in Ret (inr r, st').

(** [try { body } catch (err) { handler(err) }]. *)
Definition try_catch {R : Type} (body : M R) (handler : Error -> M R) : M R :=
  fun st =>
    prog_bind (body st) (fun r =>
      match r with
      | (inl e, st') => handler e st'
      | (inr a, st') => Ret (inr a, st')
      end).

Declare Scope handler_scope.
Delimit Scope handler_scope with handler.
Notation "x <- m ;; k" := (bind m (fun x => k))
  (at level 100, m at next level, right associativity) : handler_scope.
Notation "m ;;; k" := (bind m (fun _ => k))
  (at level 100, right associativity) : handler_scope.

(** An implementation of the collaborators over some state [W] of its own. *)
Record Collaborator (W : Type) : Type := {
  perform : forall c : call, W -> (Error + result c) * W
}.
Arguments perform {W} _ c _.

(** One entry of the log of calls made: the call and how it came back. *)
Inductive event : Type :=
| Invoked (c : call) (outcome : Error + result c).

Definition event_call (ev : event) : call :=
  match ev with Invoked c _ => c end.

Definition event_failed (ev : event) : option Error :=
  match ev with
  | Invoked _ (inl e) => Some e
  | Invoked _ (inr _) => None
  end.

(** Running a program against an implementation: the value, the
    implementation's final state and the calls made, oldest first. *)
Fixpoint run {W R : Type} (impl : Collaborator W) (p : prog R) (w : W) : R * W * list event :=
  match p with
  | Ret r => (r, w, [])
  | Call c k =>
      let '(o, w') := perform impl c w in
      let '(r, w'', evs) := run impl (k o) w' in
      (r, w'', Invoked c o :: evs)
  end.

Definition is_send (c : call) : bool :=
  match c with send _ _ => true | _ => false end.

(** ** The HTTP handlers *)

(** What a handler reads of the request. *)
Record Request : Type := {
  req_ip : option jsstring;          (* req.ip *)
  remoteAddress : option jsstring;   (* req.connection.remoteAddress *)
  body : jsval;                      (* req.body, parsed by express.json() *)
  params_quoteId : jsstring          (* req.params.quoteId *)
}.

(** What a handler sends: the status code and the value given to
    [res.json]. *)
Record Response : Type := {
  status : Z;
  json : jsval
}.

Definition res_json (v : jsval) : Response := {| status := 200; json := v |}.
Definition res_status_json (code : Z) (v : jsval) : Response := {| status := code; json := v |}.

Definition error_body (msg : jsstring) : jsval := JObj [(lit "error", JStr msg)].

(** [balances[mint] || 0]: the balance of [mint], and [0] when the object has
    no entry for it (or has the entry [0]). *)
Definition balance_or_0 (balances : gmap jsstring Z) (mint : jsstring) : Z :=
  default 0 (balances !! mint).

(** The collaborator's balances object as a JSON value. *)
Definition balances_json (balances : gmap jsstring Z) : jsval :=
  JObj ((fun kv => (fst kv, JNum (snd kv))) <$> map_to_list balances).

(** [req.ip || req.connection.remoteAddress]. *)
Definition clientIp_of (req : Request) : ClientKey :=
  match req_ip req with
  | Some (c :: s) => Some (c :: s)
  | _ => remoteAddress req
  end.

Definition opt_str (o : option jsstring) : jsval :=
  match o with
  | Some s => JStr s
  | None => JUndefined
  end.

(** The error of reading a property of [undefined]. *)
Definition TypeError_undefined_id : Error :=
  {| err_message := lit "Cannot read properties of undefined (reading 'id')" |}.

Section Handlers.

Local Open Scope handler_scope.

Variable cfg : Config.

(** The records of [easy_puzzles.json], loaded at start-up. *)
Variable puzzlesData : list Puzzle.

(** [v < 1] for a string, an array or an object [v]: JavaScript converts
    [v] to a number first; the conversion is not embedded and the
    handlers are defined for any outcome of it. *)
Variable coerced_lt_1 : jsval -> bool.

(** [amount < 1].  [undefined] becomes [NaN], [null] and [false] become [0],
    [true] becomes [1]; a number is compared as it is:
    [significand * 10^exponent] is below [1] when the exponent is negative
    and the significand is below [10^(-exponent)].  (A number and its
    shortest decimal lie on the same side of [1], which is its own shortest
    decimal.) *)
Definition js_lt_1 (amount : jsval) : bool :=
  match amount with
  | JUndefined => false
  | JNull => true
  | JBool b => negb b
  | JNum z => z <? 1
  | JDec negative significand exponent =>
      negative || ((exponent <? 0) && (Z.pos significand <? 10 ^ (- exponent)))
  | JInf negative => negative
  | JStr _ | JArr _ | JObj _ => coerced_lt_1 amount
  end.

(** The [catch (err)] block most handlers share. *)
Definition catch_500 (err : Error) : M Response :=
  ret (res_status_json 500 (error_body (err_message err))).

(** [GET /health] *)
Definition health : M Response :=
  ret (res_json (JObj [(lit "status", JStr (lit "ok"));
                       (lit "message", JStr (lit "ChessU Server"));
                       (lit "mode", JStr (activeMode cfg));
                       (lit "mint", JStr (activeMint cfg))])).

(** [GET /api/balance] *)
Definition api_balance : M Response :=
  try_catch
    (balances <- await getBalances;;
     ret (res_json (JObj [(lit "balances", balances_json balances);
                          (lit "activeMode", JStr (activeMode cfg));
                          (lit "activeMint", JStr (activeMint cfg));
                          (lit "total", JNum (balance_or_0 balances (activeMint cfg)))])))
    catch_500.

(** [GET /api/puzzle], with [randomIndex] the value of
    [Math.floor(Math.random() * puzzlesData.length)]. *)
Definition api_puzzle (randomIndex : nat) : M Response :=
  try_catch
    (puzzle <- match puzzlesData !! randomIndex with
               | Some p => ret p
               | None => throw TypeError_undefined_id
               end;;
     ret (res_json (JObj [(lit "id", JStr (id puzzle));
                          (lit "fen", JStr (fen puzzle));
                          (lit "rating", JNum (rating puzzle));
                          (lit "solution", jsstrings (solution puzzle));
                          (lit "themes", jsstrings (themes puzzle))])))
    (fun err =>
       ret (res_status_json 500
              (error_body (lit "Failed to fetch puzzle: " ++ err_message err)))).

(** [POST /api/receive] *)
Definition api_receive (req : Request) : M Response :=
  try_catch
    (let token := get_prop (body req) "token" in
     if negb (truthy token) then
       ret (res_status_json 400 (error_body (lit "Token is required")))
     else
       (* Receive the token *)
       await (receive token);;;
       (* Get updated balance *)
       balances <- await getBalances;;
       let totalReceived := balance_or_0 balances (activeMint cfg) in
       ret (res_json (JObj [(lit "success", JBool true);
                            (lit "balance", JNum totalReceived);
                            (lit "message", JStr (lit "Tokens received successfully"))])))
    catch_500.

(** [POST /api/donate] *)
Definition api_donate (req : Request) : M Response :=
  try_catch
    (let amount := get_prop (body req) "amount" in
     if negb (truthy amount) || js_lt_1 amount then
       ret (res_status_json 400 (error_body (lit "Amount must be at least 1 sat")))
     else
       mintQuote <- await (createMintQuote (activeMint cfg) amount);;
       (* Generate QR code for the payment request *)
       qrCode <- await (QRCode_toDataURL (request mintQuote));;
       ret (res_json (JObj [(lit "quoteId", JStr (quote mintQuote));
                            (lit "amount", amount);
                            (lit "paymentRequest", JStr (request mintQuote));
                            (lit "qrCode", JStr qrCode);
                            (lit "mint", JStr (activeMint cfg))])))
    catch_500.

(** [GET /api/donate/check/:quoteId] *)
Definition api_donate_check (req : Request) : M Response :=
  try_catch
    (let quoteId := params_quoteId req in
     (* Try to redeem the quote *)
     await (redeemMintQuote (activeMint cfg) quoteId);;;
     balances <- await getBalances;;
     ret (res_json (JObj [(lit "paid", JBool true);
                          (lit "balance", JNum (balance_or_0 balances (activeMint cfg)))])))
    (fun err =>
       (* If redemption fails, quote might not be paid yet *)
       ret (res_json (JObj [(lit "paid", JBool false);
                            (lit "error", JStr (err_message err))]))).

(** [POST /api/puzzle/solve], with [now] the clock reading of the
    [checkRateLimit] call. *)
Definition api_puzzle_solve (now : Z) (req : Request) : M Response :=
  try_catch
    (let puzzleId := get_prop (body req) "puzzleId" in
     let moves := get_prop (body req) "moves" in
     if negb (truthy puzzleId) || negb (truthy moves) || negb (Array_isArray moves) then
       ret (res_status_json 400
              (error_body (lit "Invalid request. Provide puzzleId and moves array.")))
     else
       (* Check rate limit *)
       let clientIp := clientIp_of req in
       rateLimitCheck <- with_rateLimitMap (checkRateLimit cfg now clientIp);;
       if negb (allowed rateLimitCheck) then
         ret (res_status_json 429 (JObj [(lit "error", opt_str (message rateLimitCheck))]))
       else
         (* Find the puzzle in our local database *)
         match find_puzzle puzzlesData puzzleId with
         | None =>
             ret (res_status_json 400
                    (error_body (lit "Puzzle not found. Please try a new puzzle.")))
         | Some puzzle =>
             (* Validate solution *)
             if negb (isCorrect moves puzzle) then
               ret (res_status_json 400 (error_body (lit "Incorrect solution. Try again!")))
             else
               (* Check if wallet has enough balance *)
               balances <- await getBalances;;
               let balance := balance_or_0 balances (activeMint cfg) in
               if balance <? puzzleReward cfg then
                 ret (res_status_json 503
                        (error_body (lit "Insufficient funds in puzzle pot. Please ask someone to donate!")))
               else
                 (* Send tokens *)
                 token <- await (send (activeMint cfg) (puzzleReward cfg));;
                 tokenString <- await (getEncodedToken token);;
                 (* Generate QR code *)
                 qrCode <- await (QRCode_toDataURL tokenString);;
                 newBalance <- await getBalances;;
                 ret (res_json (JObj [(lit "success", JBool true);
                                      (lit "reward", JNum (puzzleReward cfg));
                                      (lit "token", JStr tokenString);
                                      (lit "qrCode", JStr qrCode);
                                      (lit "remainingBalance",
                                       JNum (balance_or_0 newBalance (activeMint cfg)))]))
         end)
    catch_500.

(** The routes of the application. *)
Inductive Endpoint : Type :=
| GET_health
| GET_api_balance
| GET_api_puzzle (randomIndex : nat)
| POST_api_receive
| POST_api_donate
| GET_api_donate_check
| POST_api_puzzle_solve (now : Z).

Definition handler (ep : Endpoint) (req : Request) : M Response :=
  match ep with
  | GET_health => health
  | GET_api_balance => api_balance
  | GET_api_puzzle randomIndex => api_puzzle randomIndex
  | POST_api_receive => api_receive req
  | POST_api_donate => api_donate req
  | GET_api_donate_check => api_donate_check req
  | POST_api_puzzle_solve now => api_puzzle_solve now req
  end.

(** Serving one request: the handler runs on the current map against the
    collaborators.  The outcome is the response sent, or the error that
    left the handler uncaught. *)
Definition serve {W : Type} (impl : Collaborator W) (ep : Endpoint) (req : Request)
    (rateLimitMap : RateLimitMap) (w : W)
  : (Error + Response) * RateLimitMap * W * list event :=
  run impl (handler ep req rateLimitMap) w.

End Handlers.

(** ** Collaborators to run the handlers against *)

(** A wallet that keeps its balances in a map: [send] takes the amount out
    of the mint's balance and fails when the balance is short, a quote is
    never paid. *)
Definition pot_wallet : Collaborator (gmap jsstring Z) := {|
  perform c :=
    match c return gmap jsstring Z -> (Error + result c) * gmap jsstring Z with
    | getBalances => fun w => (inr w, w)
    | send mintUrl amount => fun w =>
        if amount <=? balance_or_0 w mintUrl
        then (inr (JObj [(lit "mint", JStr mintUrl); (lit "amount", JNum amount)]),
              <[mintUrl := balance_or_0 w mintUrl - amount]> w)
        else (inl {| err_message := lit "Insufficient balance" |}, w)
    | receive _ => fun w => (inr tt, w)
    | createMintQuote _ _ => fun w =>
        (inr {| quote := lit "q1"; request := lit "lnbc10n1" |}, w)
    | redeemMintQuote _ _ => fun w => (inl {| err_message := lit "Quote not paid" |}, w)
    | getEncodedToken _ => fun w => (inr (lit "cashuBtoken"), w)
    | QRCode_toDataURL text => fun w => (inr (lit "data:image/png;base64," ++ text), w)
    end
|}.

(** A wallet whose mint cannot be reached: every call fails. *)
Definition offline_wallet : Collaborator unit := {|
  perform c w := (inl {| err_message := lit "fetch failed" |}, w)
|}.

(** Sum of the balances over all mints. *)
Definition sum_of_balances (balances : gmap jsstring Z) : Z :=
  map_fold (fun _ v acc => v + acc) 0 balances.

Definition no_coercion (v : jsval) : bool := false.

Definition example_ip : ClientKey := Some (lit "203.0.113.7").

Definition example_puzzle : Puzzle := {|
  id := lit "00sHx";
  fen := lit "q3k1nr/1pp1nQpp/3p4/1P2p3/4P3/B1PP1b2/B5PP/5K2 b k - 0 17";
  solution := [lit "e7e5"; lit "Nf3"; lit "Nc6"; lit "Bb5"];
  rating := 1760;
  themes := [lit "mate"; lit "short"]
|}.

Definition solve_request (puzzleId : jsval) (moves : jsval) : Request := {|
  req_ip := Some (lit "203.0.113.7");
  remoteAddress := None;
  body := JObj [(lit "puzzleId", puzzleId); (lit "moves", moves)];
  params_quoteId := []
|}.

(** A request to the other routes. *)
Definition donate_request (amount : jsval) : Request := {|
  req_ip := Some (lit "203.0.113.7");
  remoteAddress := None;
  body := JObj [(lit "amount", amount)];
  params_quoteId := lit "q1"
|}.

(** A puzzle whose solution is the opponent's move alone. *)
Definition one_move_puzzle : Puzzle := {|
  id := lit "0000D";
  fen := lit "5rk1/1p3ppp/pq3b2/8/8/1P1Q1N2/P4PPP/3R2K1 w - - 2 27";
  solution := [lit "d3d6"];
  rating := 1500;
  themes := []
|}.

(** A solve request that passes the shape check of the handler: [puzzleId]
    is truthy and [moves] is an array. *)
Definition well_formed (req : Request) : Prop :=
  truthy (get_prop (body req) "puzzleId") = true
  /\ Array_isArray (get_prop (body req) "moves") = true.

(** ** What happens to the rate-limit map over time *)

(** The two things the program does to [rateLimitMap]: a solve attempt runs
    [checkRateLimit] for its client, the hourly timer runs the clean-up. *)
Inductive map_op : Type :=
| Attempt (ip : ClientKey) (now : Z)
| Sweep (now : Z).

Definition op_time (op : map_op) : Z :=
  match op with
  | Attempt _ now => now
  | Sweep now => now
  end.

Definition apply_op (cfg : Config) (rateLimitMap : RateLimitMap) (op : map_op) : RateLimitMap :=
  match op with
  | Attempt ip now => (checkRateLimit cfg now ip rateLimitMap).2
  | Sweep now => cleanup cfg now rateLimitMap
  end.

Definition apply_ops (cfg : Config) (ops : list map_op) (rateLimitMap : RateLimitMap) : RateLimitMap :=
  foldl (apply_op cfg) rateLimitMap ops.

(** ** Start-up *)

(** The steps of [initWallet] and [start] that reach outside the program.
    Each may throw or reject.  [app_listen] is the call of [listen] itself:
    it is not awaited, and it fails when the call throws, as it does on a
    port out of range.  A port that cannot be bound is no failure of the
    call: [listen] returns, [start()] resolves, and the server tells later,
    by its ['listening'] or its ['error'] event.  [server_listening] is that
    later moment; it fails when the server emits ['error']. *)
Inductive startup_call : Type :=
| new_Database (path : jsstring)          (* new sqlite3.Database(config.dbPath) *)
| new_SqliteRepositories                  (* new SqliteRepositories({ database: db }) *)
| repos_init                              (* await repos.init() *)
| new_Manager                             (* new Manager(repos, seedGetter, logger) *)
| addMint (mintUrl : jsstring)            (* await manager.mint.addMint(url) *)
| app_listen (port : jsval) (host : jsstring)
| server_listening.

Definition is_addMint (c : startup_call) : bool :=
  match c with addMint _ => true | _ => false end.

(** The steps whose failure rejects [start()]: all but the registrations,
    which have a [try] of their own, and the server's event, which comes
    after [start()] has resolved. *)
Definition rejects_start (c : startup_call) : bool :=
  match c with addMint _ | server_listening => false | _ => true end.

(** What the program writes to the console while starting. *)
Inductive console_line : Type :=
| console_log (text : jsstring)
| console_error (label : jsstring) (err : Error).

(** How the process stands: [Serving] when nothing has stopped it,
    [Exited code] after [process.exit(code)], [Unhandled err] when the server
    has emitted ['error'] with [err]: the program listens to no such event,
    the handler of [.catch] does not run and the error is left to the
    runtime as an uncaught exception. *)
Inductive process_state : Type :=
| Serving
| Exited (code : Z)
| Unhandled (err : Error).

(** The surroundings of the start-up: each step succeeds ([None]) or fails
    with an error. *)
Record StartupEnv (W : Type) : Type := {
  startup_perform : startup_call -> W -> option Error * W
}.
Arguments startup_perform {W} _ _ _.

(** The state threaded through the start-up: the surroundings, the steps
    taken with their outcomes and the console, both oldest first. *)
Record Boot (W : Type) : Type := {
  boot_world : W;
  boot_calls : list (startup_call * option Error);
  boot_console : list console_line
}.
Arguments boot_world {W} _.
Arguments boot_calls {W} _.
Arguments boot_console {W} _.

Definition B (W A : Type) : Type := Boot W -> (Error + A) * Boot W.

Definition boot_ret {W A : Type} (a : A) : B W A := fun st => (inr a, st).

Definition boot_bind {W A A' : Type} (m : B W A) (f : A -> B W A') : B W A' :=
  fun st =>
    match m st with
    | (inl e, st') => (inl e, st')
    | (inr a, st') => f a st'
    end.

Definition boot_call {W : Type} (env : StartupEnv W) (c : startup_call) : B W unit :=
  fun st =>
    let '(o, w') := startup_perform env c (boot_world st) in
    let st' := {| boot_world := w';
                  boot_calls := boot_calls st ++ [(c, o)];
                  boot_console := boot_console st |} in
    match o with
    | Some e => (inl e, st')
    | None => (inr tt, st')
    end.

Definition boot_log {W : Type} (line : console_line) : B W unit :=
  fun st =>
    (inr tt, {| boot_world := boot_world st;
                boot_calls := boot_calls st;
                boot_console := boot_console st ++ [line] |}).

Definition boot_try {W A : Type} (body : B W A) (handler : Error -> B W A) : B W A :=
  fun st =>
    match body st with
    | (inl e, st') => handler e st'
    | (inr a, st') => (inr a, st')
    end.

Declare Scope boot_scope.
Delimit Scope boot_scope with boot.
Notation "m ;;; k" := (boot_bind m (fun _ => k))
  (at level 100, right associativity) : boot_scope.

(** [PORT = process.env.PORT || 3000]. *)
Definition PORT_of (env_PORT : option jsstring) : jsval :=
  match env_PORT with
  | Some (c :: s) => JStr (c :: s)
  | _ => JNum 3000
  end.

(** [initWallet()]. *)
Definition initWallet {W : Type} (env : StartupEnv W) (cfg : Config) : B W unit :=
  (boot_log (console_log (lit "Initializing wallet with " ++ activeMode cfg
                          ++ lit " mint: " ++ activeMint cfg));;;
   (* Create SQLite database *)
   boot_call env (new_Database (dbPath cfg));;;
   boot_call env new_SqliteRepositories;;;
   boot_call env repos_init;;;  (* Initialize schema *)
   boot_call env new_Manager;;;
   (* Register both mints *)
   boot_try
     (boot_call env (addMint (testMint cfg));;;
      boot_log (console_log (lit "Registered test mint: " ++ testMint cfg)))
     (fun err =>
        boot_log (console_log (lit "Test mint already registered or error: "
                               ++ err_message err)));;;
   boot_try
     (boot_call env (addMint (mainMint cfg));;;
      boot_log (console_log (lit "Registered main mint: " ++ mainMint cfg)))
     (fun err =>
        boot_log (console_log (lit "Main mint already registered or error: "
                               ++ err_message err)));;;
   boot_log (console_log (lit "Wallet initialized successfully")))%boot.

(** [start()]: the wallet, then [app.listen(PORT, '0.0.0.0', ...)].  The
    callback of [listen] runs later, see [launch]. *)
Definition start {W : Type} (env : StartupEnv W) (cfg : Config) (env_PORT : option jsstring)
  : B W unit :=
  (initWallet env cfg;;;
   boot_call env (app_listen (PORT_of env_PORT) (lit "0.0.0.0")))%boot.

(** [start().catch(err => { console.error(...); process.exit(1); })] on a
    fresh process, up to the moment [start()] settles. *)
Definition main {W : Type} (env : StartupEnv W) (cfg : Config) (env_PORT : option jsstring)
    (w : W) : process_state * Boot W :=
  match start env cfg env_PORT
          {| boot_world := w; boot_calls := []; boot_console := [] |} with
  | (inr _, st) => (Serving, st)
  | (inl err, st) =>
      (Exited 1,
       {| boot_world := boot_world st;
          boot_calls := boot_calls st;
          boot_console := boot_console st
                          ++ [console_error (lit "Failed to start server:") err] |})
  end.

(** [PORT] inside the template literal of the callback. *)
Definition PORT_text (env_PORT : option jsstring) : jsstring :=
  match PORT_of env_PORT with
  | JStr s => s
  | _ => Number_toString 3000
  end.

(** The process from its start to the server's first event.  When
    [start()] has resolved, the server emits ['listening'], which runs the
    callback given to [listen], or ['error'], which nothing handles. *)
Definition launch {W : Type} (env : StartupEnv W) (cfg : Config)
    (env_PORT : option jsstring) (w : W) : process_state * Boot W :=
  match main env cfg env_PORT w with
  | (Serving, st) =>
      match boot_call env server_listening st with
      | (inr _, st') =>
          (Serving,
           {| boot_world := boot_world st';
              boot_calls := boot_calls st';
              boot_console := boot_console st'
                              ++ [console_log (lit "Server running on http://0.0.0.0:"
                                               ++ PORT_text env_PORT)] |})
      | (inl err, st') => (Unhandled err, st')
      end
  | outcome => outcome
  end.

(** Surroundings in which the mint refuses every registration and
    everything else works. *)
Definition mints_refuse : StartupEnv unit := {|
  startup_perform c w :=
    (if is_addMint c then Some {| err_message := lit "Mint already exists" |} else None, w)
|}.

(** Surroundings in which the port is taken and everything else works. *)
Definition port_in_use : StartupEnv unit := {|
  startup_perform c w :=
    (match c with
     | server_listening => Some {| err_message := lit "listen EADDRINUSE" |}
     | _ => None
     end, w)
|}.

(** Surroundings in which the database schema cannot be set up. *)
Definition schema_fails : StartupEnv unit := {|
  startup_perform c w :=
    (match c with
     | repos_init => Some {| err_message := lit "SQLITE_CANTOPEN" |}
     | _ => None
     end, w)
|}.

(** ** The ways of a solve request *)

(** The bodies the solve handler sends. *)
Definition invalid_request_400 : Response :=
  res_status_json 400 (error_body (lit "Invalid request. Provide puzzleId and moves array.")).
Definition puzzle_not_found_400 : Response :=
  res_status_json 400 (error_body (lit "Puzzle not found. Please try a new puzzle.")).
Definition incorrect_solution_400 : Response :=
  res_status_json 400 (error_body (lit "Incorrect solution. Try again!")).
Definition insufficient_funds_503 : Response :=
  res_status_json 503
    (error_body (lit "Insufficient funds in puzzle pot. Please ask someone to donate!")).
Definition reward_200 (cfg : Config) (tokenString qrCode : jsstring)
    (newBalance : gmap jsstring Z) : Response :=
  res_json (JObj [(lit "success", JBool true);
                  (lit "reward", JNum (puzzleReward cfg));
                  (lit "token", JStr tokenString);
                  (lit "qrCode", JStr qrCode);
                  (lit "remainingBalance", JNum (balance_or_0 newBalance (activeMint cfg)))]).

(** A request that gets as far as the wallet: it passes the shape check and
    the rate limiter and carries the expected moves of the puzzle it
    names. *)
Definition reaches_wallet (cfg : Config) (puzzlesData : list Puzzle) (now : Z)
    (req : Request) (m : RateLimitMap) (puzzle : Puzzle) : Prop :=
  well_formed req
  /\ allowed (checkRateLimit cfg now (clientIp_of req) m).1 = true
  /\ find_puzzle puzzlesData (get_prop (body req) "puzzleId") = Some puzzle
  /\ isCorrect (get_prop (body req) "moves") puzzle = true.

(** The eleven ways a solve request can go, each with what it takes and
    what comes out: the response, the map, the collaborators' state and
    the calls made. *)
Inductive solve_run (cfg : Config) (puzzlesData : list Puzzle) {W : Type}
    (impl : Collaborator W) (now : Z) (req : Request) (m : RateLimitMap) (w : W)
  : (Error + Response) * RateLimitMap * W * list event -> Prop :=
| solve_malformed_run :
    ~ well_formed req ->
    solve_run cfg puzzlesData impl now req m w (inr invalid_request_400, m, w, [])
| solve_denied_run (msg : jsstring) :
    well_formed req ->
    checkRateLimit cfg now (clientIp_of req) m
      = ({| allowed := false; message := Some msg |}, m) ->
    solve_run cfg puzzlesData impl now req m w
      (inr (res_status_json 429 (error_body msg)), m, w, [])
| solve_not_found_run :
    well_formed req ->
    allowed (checkRateLimit cfg now (clientIp_of req) m).1 = true ->
    find_puzzle puzzlesData (get_prop (body req) "puzzleId") = None ->
    solve_run cfg puzzlesData impl now req m w
      (inr puzzle_not_found_400, <[clientIp_of req := now]> m, w, [])
| solve_incorrect_run (puzzle : Puzzle) :
    well_formed req ->
    allowed (checkRateLimit cfg now (clientIp_of req) m).1 = true ->
    find_puzzle puzzlesData (get_prop (body req) "puzzleId") = Some puzzle ->
    isCorrect (get_prop (body req) "moves") puzzle = false ->
    solve_run cfg puzzlesData impl now req m w
      (inr incorrect_solution_400, <[clientIp_of req := now]> m, w, [])
| solve_balance_query_failed_run (puzzle : Puzzle) (e : Error) (w1 : W) :
    reaches_wallet cfg puzzlesData now req m puzzle ->
    perform impl getBalances w = (inl e, w1) ->
    solve_run cfg puzzlesData impl now req m w
      (inr (res_status_json 500 (error_body (err_message e))),
       <[clientIp_of req := now]> m, w1,
       [Invoked getBalances (inl e)])
| solve_insufficient_run (puzzle : Puzzle) (balances : gmap jsstring Z) (w1 : W) :
    reaches_wallet cfg puzzlesData now req m puzzle ->
    perform impl getBalances w = (inr balances, w1) ->
    balance_or_0 balances (activeMint cfg) < puzzleReward cfg ->
    solve_run cfg puzzlesData impl now req m w
      (inr insufficient_funds_503, <[clientIp_of req := now]> m, w1,
       [Invoked getBalances (inr balances)])
| solve_send_failed_run (puzzle : Puzzle) (balances : gmap jsstring Z) (e : Error) (w1 w2 : W) :
    reaches_wallet cfg puzzlesData now req m puzzle ->
    perform impl getBalances w = (inr balances, w1) ->
    puzzleReward cfg <= balance_or_0 balances (activeMint cfg) ->
    perform impl (send (activeMint cfg) (puzzleReward cfg)) w1 = (inl e, w2) ->
    solve_run cfg puzzlesData impl now req m w
      (inr (res_status_json 500 (error_body (err_message e))),
       <[clientIp_of req := now]> m, w2,
       [Invoked getBalances (inr balances);
        Invoked (send (activeMint cfg) (puzzleReward cfg)) (inl e)])
| solve_encoding_failed_run (puzzle : Puzzle) (balances : gmap jsstring Z) (token : jsval)
    (e : Error) (w1 w2 w3 : W) :
    reaches_wallet cfg puzzlesData now req m puzzle ->
    perform impl getBalances w = (inr balances, w1) ->
    puzzleReward cfg <= balance_or_0 balances (activeMint cfg) ->
    perform impl (send (activeMint cfg) (puzzleReward cfg)) w1 = (inr token, w2) ->
    perform impl (getEncodedToken token) w2 = (inl e, w3) ->
    solve_run cfg puzzlesData impl now req m w
      (inr (res_status_json 500 (error_body (err_message e))),
       <[clientIp_of req := now]> m, w3,
       [Invoked getBalances (inr balances);
        Invoked (send (activeMint cfg) (puzzleReward cfg)) (inr token);
        Invoked (getEncodedToken token) (inl e)])
| solve_qr_failed_run (puzzle : Puzzle) (balances : gmap jsstring Z) (token : jsval)
    (tokenString : jsstring) (e : Error) (w1 w2 w3 w4 : W) :
    reaches_wallet cfg puzzlesData now req m puzzle ->
    perform impl getBalances w = (inr balances, w1) ->
    puzzleReward cfg <= balance_or_0 balances (activeMint cfg) ->
    perform impl (send (activeMint cfg) (puzzleReward cfg)) w1 = (inr token, w2) ->
    perform impl (getEncodedToken token) w2 = (inr tokenString, w3) ->
    perform impl (QRCode_toDataURL tokenString) w3 = (inl e, w4) ->
    solve_run cfg puzzlesData impl now req m w
      (inr (res_status_json 500 (error_body (err_message e))),
       <[clientIp_of req := now]> m, w4,
       [Invoked getBalances (inr balances);
        Invoked (send (activeMint cfg) (puzzleReward cfg)) (inr token);
        Invoked (getEncodedToken token) (inr tokenString);
        Invoked (QRCode_toDataURL tokenString) (inl e)])
| solve_new_balance_failed_run (puzzle : Puzzle) (balances : gmap jsstring Z) (token : jsval)
    (tokenString qrCode : jsstring) (e : Error) (w1 w2 w3 w4 w5 : W) :
    reaches_wallet cfg puzzlesData now req m puzzle ->
    perform impl getBalances w = (inr balances, w1) ->
    puzzleReward cfg <= balance_or_0 balances (activeMint cfg) ->
    perform impl (send (activeMint cfg) (puzzleReward cfg)) w1 = (inr token, w2) ->
    perform impl (getEncodedToken token) w2 = (inr tokenString, w3) ->
    perform impl (QRCode_toDataURL tokenString) w3 = (inr qrCode, w4) ->
    perform impl getBalances w4 = (inl e, w5) ->
    solve_run cfg puzzlesData impl now req m w
      (inr (res_status_json 500 (error_body (err_message e))),
       <[clientIp_of req := now]> m, w5,
       [Invoked getBalances (inr balances);
        Invoked (send (activeMint cfg) (puzzleReward cfg)) (inr token);
        Invoked (getEncodedToken token) (inr tokenString);
        Invoked (QRCode_toDataURL tokenString) (inr qrCode);
        Invoked getBalances (inl e)])
| solve_paid_run (puzzle : Puzzle) (balances newBalance : gmap jsstring Z) (token : jsval)
    (tokenString qrCode : jsstring) (w1 w2 w3 w4 w5 : W) :
    reaches_wallet cfg puzzlesData now req m puzzle ->
    perform impl getBalances w = (inr balances, w1) ->
    puzzleReward cfg <= balance_or_0 balances (activeMint cfg) ->
    perform impl (send (activeMint cfg) (puzzleReward cfg)) w1 = (inr token, w2) ->
    perform impl (getEncodedToken token) w2 = (inr tokenString, w3) ->
    perform impl (QRCode_toDataURL tokenString) w3 = (inr qrCode, w4) ->
    perform impl getBalances w4 = (inr newBalance, w5) ->
    solve_run cfg puzzlesData impl now req m w
      (inr (reward_200 cfg tokenString qrCode newBalance),
       <[clientIp_of req := now]> m, w5,
       [Invoked getBalances (inr balances);
        Invoked (send (activeMint cfg) (puzzleReward cfg)) (inr token);
        Invoked (getEncodedToken token) (inr tokenString);
        Invoked (QRCode_toDataURL tokenString) (inr qrCode);
        Invoked getBalances (inr newBalance)]).

(** * Properties *)

(** ** The rate limiter *)

(** [Math_ceil_div x 1000] is the least integer [k] with [x <= 1000 * k]. *)
Lemma Math_ceil_div_1000 (x : Z) :
  1000 * (Math_ceil_div x 1000 - 1) < x <= 1000 * Math_ceil_div x 1000.
Proof.
  unfold Math_ceil_div.
  pose proof (Z_div_mod_eq_full (- x) 1000) as Hdiv.
  pose proof (Z.mod_pos_bound (- x) 1000) as Hmod.
  lia.
Qed.

Section RateLimiterFacts.

Variable cfg : Config.

(** The branches of [checkRateLimit], one lemma each. *)
Lemma checkRateLimit_no_entry (now : Z) (ip : ClientKey) (m : RateLimitMap) :
  m !! ip = None -> checkRateLimit cfg now ip m = allow_and_record now ip m.
Proof. intros Hm. unfold checkRateLimit. by rewrite Hm. Qed.

Lemma checkRateLimit_entry_0 (now : Z) (ip : ClientKey) (m : RateLimitMap) :
  m !! ip = Some 0 -> checkRateLimit cfg now ip m = allow_and_record now ip m.
Proof. intros Hm. unfold checkRateLimit. by rewrite Hm. Qed.

Lemma checkRateLimit_cooled_down (now : Z) (ip : ClientKey) (m : RateLimitMap) t :
  m !! ip = Some t -> rateLimitMs cfg <= now - t ->
  checkRateLimit cfg now ip m = allow_and_record now ip m.
Proof.
  intros Hm Hle. unfold checkRateLimit. rewrite Hm. simpl.
  destruct (t =? 0); [done|].
  destruct (Z.ltb_spec (now - t) (rateLimitMs cfg)); [lia | done].
Qed.

Lemma checkRateLimit_too_soon (now : Z) (ip : ClientKey) (m : RateLimitMap) t :
  m !! ip = Some t -> t <> 0 -> now - t < rateLimitMs cfg ->
  checkRateLimit cfg now ip m =
    ({| allowed := false;
        message := Some (slow_down_message cfg (secondsRemaining cfg (now - t))) |}, m).
Proof.
  intros Hm Ht Hlt. unfold checkRateLimit. rewrite Hm. simpl.
  destruct (Z.eqb_spec t 0); [done|].
  destruct (Z.ltb_spec (now - t) (rateLimitMs cfg)); [done | lia].
Qed.

(** Every outcome of [checkRateLimit] is one of the two above. *)
Lemma checkRateLimit_cases (now : Z) (ip : ClientKey) (m : RateLimitMap) :
  checkRateLimit cfg now ip m = allow_and_record now ip m
  \/ exists t, m !! ip = Some t /\ t <> 0 /\ now - t < rateLimitMs cfg
       /\ checkRateLimit cfg now ip m =
            ({| allowed := false;
                message := Some (slow_down_message cfg (secondsRemaining cfg (now - t))) |}, m).
Proof.
  destruct (m !! ip) as [t|] eqn:Hm.
  - destruct (decide (t = 0)) as [->|Ht].
    + left. by apply checkRateLimit_entry_0.
    + destruct (Z.lt_ge_cases (now - t) (rateLimitMs cfg)).
      * right. exists t. eauto using checkRateLimit_too_soon.
      * left. by eapply checkRateLimit_cooled_down.
  - left. by apply checkRateLimit_no_entry.
Qed.

Lemma checkRateLimit_allowed_records (now : Z) (ip : ClientKey) (m : RateLimitMap) :
  allowed (checkRateLimit cfg now ip m).1 = true ->
  checkRateLimit cfg now ip m = allow_and_record now ip m.
Proof.
  destruct (checkRateLimit_cases now ip m) as [H | (t & _ & _ & _ & H)]; [done|].
  rewrite H. discriminate.
Qed.

Lemma checkRateLimit_denied_inv (now : Z) (ip : ClientKey) (m : RateLimitMap) :
  allowed (checkRateLimit cfg now ip m).1 = false ->
  exists t, m !! ip = Some t /\ t <> 0 /\ now - t < rateLimitMs cfg
    /\ checkRateLimit cfg now ip m =
         ({| allowed := false;
             message := Some (slow_down_message cfg (secondsRemaining cfg (now - t))) |}, m).
Proof.
  destruct (checkRateLimit_cases now ip m) as [H | H]; [|done].
  rewrite H. discriminate.
Qed.

(** The seconds reported on a denial: at least one, and at most the
    cooldown when the clock has not gone back since the entry was made. *)
Lemma secondsRemaining_positive elapsed :
  elapsed < rateLimitMs cfg -> 1 <= secondsRemaining cfg elapsed.
Proof.
  intros Hlt. unfold secondsRemaining.
  pose proof (Math_ceil_div_1000 (rateLimitMs cfg - elapsed)). lia.
Qed.

Lemma secondsRemaining_le_cooldown elapsed :
  0 <= elapsed -> secondsRemaining cfg elapsed <= rateLimitSeconds cfg.
Proof.
  intros Hge. unfold secondsRemaining.
  pose proof (Math_ceil_div_1000 (rateLimitMs cfg - elapsed)).
  unfold rateLimitMs in *. lia.
Qed.

(** The clean-up loop, entry by entry. *)
Lemma foldl_cleanup_entry_lookup (now : Z) (entries : list (ClientKey * Z)) (acc : RateLimitMap) (ip : ClientKey) :
  foldl (cleanup_entry cfg now) acc entries !! ip =
    if existsb (fun e => bool_decide (e.1 = ip) && stale cfg now e.2) entries
    then None else acc !! ip.
Proof.
  revert acc. induction entries as [|[k t] entries IH]; intros acc; [done|].
  simpl. rewrite IH.
  destruct (existsb _ entries); [by rewrite orb_true_r|].
  rewrite orb_false_r. case_bool_decide as Hk; simpl.
  - subst k. destruct (stale cfg now t); [by rewrite lookup_delete_eq | done].
  - destruct (stale cfg now t); [by rewrite lookup_delete_ne | done].
Qed.

Lemma cleanup_lookup (now : Z) (m : RateLimitMap) (ip : ClientKey) :
  cleanup cfg now m !! ip =
    match m !! ip with
    | Some t => if stale cfg now t then None else Some t
    | None => None
    end.
Proof.
  unfold cleanup. rewrite foldl_cleanup_entry_lookup.
  destruct (existsb _ _) eqn:Hex.
  - apply existsb_exists in Hex as ([k t] & Hin & Hkt). simpl in Hkt.
    apply andb_true_iff in Hkt as [Hk Hst]. apply bool_decide_eq_true in Hk. subst k.
    apply list_elem_of_In, elem_of_map_to_list in Hin. by rewrite Hin, Hst.
  - destruct (m !! ip) as [t|] eqn:Hm; [|done].
    destruct (stale cfg now t) eqn:Hst; [|done].
    assert (existsb (fun e => bool_decide (e.1 = ip) && stale cfg now e.2)
              (map_to_list m) = true) as Hex'; [|congruence].
    apply existsb_exists. exists (ip, t). split.
    + by apply list_elem_of_In, elem_of_map_to_list.
    + simpl. by rewrite bool_decide_eq_true_2, Hst.
Qed.

End RateLimiterFacts.

(** What [checkRateLimit] answers depends on the map through the client's
    own entry only. *)
Lemma checkRateLimit_answer_local (cfg : Config) (now : Z) (ip : ClientKey) (m m' : RateLimitMap) :
  m !! ip = m' !! ip ->
  (checkRateLimit cfg now ip m).1 = (checkRateLimit cfg now ip m').1.
Proof.
  intros Heq. unfold checkRateLimit. rewrite Heq.
  destruct (not_lastSolve _); [done|].
  by destruct (_ <? _).
Qed.

(** Away from a stored timestamp [0], [checkRateLimit] is the algorithm of
    the specification: first attempt allowed and recorded, later attempts
    allowed and recorded once the cooldown has passed, denied with the
    seconds remaining and the entry kept otherwise. *)
Lemma checkRateLimit_as_specified (cfg : Config) (now : Z) (ip : ClientKey) (m : RateLimitMap) :
  m !! ip <> Some 0 ->
  match m !! ip with
  | None => checkRateLimit cfg now ip m = allow_and_record now ip m
  | Some lastEntry =>
      let elapsed := now - lastEntry in
      if rateLimitSeconds cfg * 1000 <=? elapsed
      then checkRateLimit cfg now ip m = allow_and_record now ip m
      else exists secs,
          1000 * (secs - 1) < rateLimitSeconds cfg * 1000 - elapsed <= 1000 * secs
          /\ checkRateLimit cfg now ip m =
               ({| allowed := false; message := Some (slow_down_message cfg secs) |}, m)
  end.
Proof.
  intros H0. destruct (m !! ip) as [t|] eqn:Hm.
  - simpl. destruct (Z.leb_spec (rateLimitSeconds cfg * 1000) (now - t)).
    + by eapply checkRateLimit_cooled_down.
    + exists (secondsRemaining cfg (now - t)). split.
      * apply Math_ceil_div_1000.
      * apply checkRateLimit_too_soon; [done | congruence | done].
  - by apply checkRateLimit_no_entry.
Qed.

(** The 5 s scenario on a clock that starts anywhere but at [0]: allowed,
    denied 3 s later with 2 s to wait, allowed 6 s after the start. *)
Lemma cooldown_scenario (ACTIVE_MODE : option jsstring) (ip : ClientKey) (t0 : Z) :
  t0 <> 0 ->
  let cfg := config ACTIVE_MODE in
  let first := checkRateLimit cfg t0 ip ∅ in
  let second := checkRateLimit cfg (t0 + 3000) ip first.2 in
  let third := checkRateLimit cfg (t0 + 6000) ip second.2 in
  allowed first.1 = true
  /\ second.1 = {| allowed := false; message := Some (slow_down_message cfg 2) |}
  /\ allowed third.1 = true.
Proof.
  intros Ht0 cfg first second third.
  assert (first = allow_and_record t0 ip ∅) as Hfirst by done.
  assert (second = ({| allowed := false; message := Some (slow_down_message cfg 2) |},
                    <[ip := t0]> ∅)) as Hsecond.
  { unfold second. rewrite Hfirst. simpl.
    rewrite (checkRateLimit_too_soon cfg _ ip _ t0);
      [| by rewrite lookup_insert_eq | done | unfold rateLimitMs; simpl; lia].
    do 3 f_equal. by replace (t0 + 3000 - t0) with 3000 by lia. }
  split; [by rewrite Hfirst|]. split; [by rewrite Hsecond|].
  unfold third. rewrite Hsecond. simpl.
  rewrite (checkRateLimit_cooled_down cfg _ ip _ t0);
    [done | by rewrite lookup_insert_eq | unfold rateLimitMs; simpl; lia].
Qed.

(** The side condition of [checkRateLimit_as_specified] cannot be dropped:
    a stored timestamp [0] is taken for a missing entry by the test
    [!lastSolve].  Such an entry takes a call at clock reading [0], that is
    at midnight of 1 January 1970. *)
Remark checkRateLimit_forgets_timestamp_0 (ACTIVE_MODE : option jsstring) (ip : ClientKey) :
  let cfg := config ACTIVE_MODE in
  let first := checkRateLimit cfg 0 ip ∅ in
  let second := checkRateLimit cfg 3000 ip first.2 in
  allowed first.1 = true
  /\ first.2 !! ip = Some 0
  /\ allowed second.1 = true
  /\ second.2 !! ip = Some 3000.
Proof.
  intros cfg first second.
  assert (first = allow_and_record 0 ip ∅) as -> by done.
  assert (second = allow_and_record 3000 ip (<[ip := 0]> ∅)) as ->.
  { unfold second. simpl. apply checkRateLimit_entry_0. by rewrite lookup_insert_eq. }
  simpl. by rewrite !lookup_insert_eq.
Qed.

(** The map of a running server never holds the timestamp [0]: it starts
    empty, attempts store the reading of the clock, sweeps only remove. *)
Lemma apply_ops_no_timestamp_0 (cfg : Config) (ops : list map_op) (m : RateLimitMap) :
  (forall (ip : ClientKey) (t : Z), m !! ip = Some t -> t <> 0) ->
  Forall (fun op => op_time op <> 0) ops ->
  forall (ip : ClientKey) (t : Z), apply_ops cfg ops m !! ip = Some t -> t <> 0.
Proof.
  intros Hm Hops. revert m Hm.
  induction Hops as [|op ops Hop _ IH]; intros m Hm; [done|].
  unfold apply_ops. cbn [foldl]. apply IH. clear IH.
  intros ip t. destruct op as [ip' now'|now']; cbn [apply_op op_time] in *.
  - destruct (checkRateLimit_cases cfg now' ip' m) as [-> | (t' & _ & _ & _ & ->)];
      cbn [allow_and_record snd]; [|by apply Hm].
    destruct (decide (ip = ip')) as [->|Hne].
    + rewrite lookup_insert_eq. by intros [= <-].
    + rewrite lookup_insert_ne by done. apply Hm.
  - rewrite cleanup_lookup. destruct (m !! ip) as [t'|] eqn:Hip; [|done].
    destruct (stale cfg now' t'); [done|]. intros [= <-]. by eapply Hm.
Qed.



(** C6.  The sweep keeps exactly the entries whose age [now - lastSolve] is
    at most ten times the cooldown, unchanged, and removes the others; a
    client whose entry was removed has no entry left, so its next attempt,
    whenever it comes, is allowed and recorded like a first one. *)
Theorem cleanup_removes_exactly_the_stale (cfg : Config) (now : Z) (m : RateLimitMap) (ip : ClientKey) :
  (forall t, cleanup cfg now m !! ip = Some t
             <-> m !! ip = Some t /\ now - t <= rateLimitMs cfg * 10)
  /\ (forall t now',
        m !! ip = Some t -> rateLimitMs cfg * 10 < now - t ->
        cleanup cfg now m !! ip = None
        /\ checkRateLimit cfg now' ip (cleanup cfg now m)
           = allow_and_record now' ip (cleanup cfg now m)).
Proof.
  split.
  - intros t. rewrite cleanup_lookup. unfold stale.
    destruct (m !! ip) as [t'|]; [|by split; [|intros []]].
    destruct (Z.ltb_spec (rateLimitMs cfg * 10) (now - t')); split.
    + done.
    + intros [[= ->] ?]. lia.
    + intros [= ->]. split; [done | lia].
    + by intros [[= ->] _].
  - intros t now' Hm Hold.
    assert (cleanup cfg now m !! ip = None) as Hgone.
    { rewrite cleanup_lookup, Hm. unfold stale.
      destruct (Z.ltb_spec (rateLimitMs cfg * 10) (now - t)); [done | lia]. }
    split; [done|]. by apply checkRateLimit_no_entry.
Qed.

Lemma cleanup_removes_exactly_the_stale_witness :
  let cfg := config None in
  let m : RateLimitMap := {[ example_ip := 1000 ]} in
  cleanup cfg 51001 m !! example_ip = None
  /\ checkRateLimit cfg 51002 example_ip (cleanup cfg 51001 m)
     = allow_and_record 51002 example_ip (cleanup cfg 51001 m).
Proof.
  intros cfg m.
  apply (proj2 (cleanup_removes_exactly_the_stale cfg 51001 m example_ip) 1000 51002).
  - reflexivity.
  - unfold rateLimitMs. simpl. lia.
Defined.

(** C9.  For a cooldown that is not negative, a sweep never changes what the
    rate limiter answers afterwards: at the time of the sweep or at any
    later clock reading, [checkRateLimit] gives the same allowed/denied
    outcome, with the same message when it denies, on the swept map as on
    the map left alone. *)
Theorem cleanup_preserves_answer (cfg : Config) (sweepTime now : Z) (m : RateLimitMap) (ip : ClientKey) :
  0 <= rateLimitSeconds cfg ->
  sweepTime <= now ->
  (checkRateLimit cfg now ip (cleanup cfg sweepTime m)).1
  = (checkRateLimit cfg now ip m).1.
Proof.
  intros Hcfg Hnow.
  pose proof (cleanup_lookup cfg sweepTime m ip) as Hlook.
  destruct (m !! ip) as [t|] eqn:Hm.
  - destruct (stale cfg sweepTime t) eqn:Hst.
    + rewrite (checkRateLimit_no_entry _ _ _ _ Hlook).
      rewrite (checkRateLimit_cooled_down cfg now ip m t); [done | done |].
      unfold stale in Hst. apply Z.ltb_lt in Hst.
      unfold rateLimitMs in *. lia.
    + apply checkRateLimit_answer_local. by rewrite Hlook, Hm.
  - apply checkRateLimit_answer_local. by rewrite Hlook, Hm.
Qed.

Lemma cleanup_preserves_answer_witness :
  let cfg := config None in
  let m : RateLimitMap := {[ example_ip := 1000 ]} in
  (checkRateLimit cfg 51001 example_ip (cleanup cfg 51001 m)).1
  = (checkRateLimit cfg 51001 example_ip m).1.
Proof.
  intros cfg m. apply cleanup_preserves_answer; simpl; lia.
Defined.

(** ** Validation of a solution *)

(** Reading back what [QuoteJSONString] wrote. *)
Lemma unhex_hex_digit (n : N) : (n < 16)%N -> unhex (hex_digit n) = n.
Proof.
  intros Hn. unfold unhex, hex_digit.
  destruct (N.ltb_spec n 10).
  - destruct (N.ltb_spec (48 + n) 58); lia.
  - destruct (N.ltb_spec (87 + n) 58); lia.
Qed.

(** The four hexadecimal digits of a code unit give the code unit back. *)
Lemma hex_digits_value (c : N) :
  (c < 65536)%N ->
  (4096 * (c / 4096 mod 16) + 256 * (c / 256 mod 16) + 16 * (c / 16 mod 16) + c mod 16)%N = c.
Proof.
  intros Hc.
  pose proof (N.div_mod c 16 ltac:(done)).
  pose proof (N.div_mod (c / 16) 16 ltac:(done)).
  pose proof (N.div_mod (c / 256) 16 ltac:(done)).
  pose proof (N.Div0.div_div c 16 16).
  pose proof (N.Div0.div_div c 256 16).
  change (16 * 16)%N with 256%N in *. change (256 * 16)%N with 4096%N in *.
  assert (c / 4096 < 16)%N by (apply N.Div0.div_lt_upper_bound; lia).
  rewrite (N.mod_small (c / 4096) 16) by done.
  lia.
Qed.

Lemma unquote_body_raw (c : N) (t : jsstring) :
  c <> 34%N -> c <> 92%N ->
  unquote_body (c :: t) =
    match unquote_body t with Some (s, r) => Some (c :: s, r) | None => None end.
Proof.
  intros H34 H92. simpl.
  destruct (N.eqb_spec c 34); [done|]. by destruct (N.eqb_spec c 92).
Qed.

Lemma unquote_body_UnicodeEscape (c : N) (t : jsstring) :
  (c < 65536)%N ->
  unquote_body (UnicodeEscape c ++ t) =
    match unquote_body t with Some (s, r) => Some (c :: s, r) | None => None end.
Proof.
  intros Hc. unfold UnicodeEscape.
  cbn [app unquote_body]. change (92 =? 34)%N with false. change (92 =? 92)%N with true.
  change (117 =? 117)%N with true. cbv iota.
  rewrite !unhex_hex_digit by (apply N.mod_lt; done).
  by rewrite hex_digits_value.
Qed.

(** One code unit written by [quote_unit] is read back as that code unit. *)
Lemma unquote_body_quote_unit (c : N) (t : jsstring) :
  unquote_body (quote_unit c ++ t) =
    match unquote_body t with Some (s, r) => Some (c :: s, r) | None => None end.
Proof.
  unfold quote_unit.
  repeat (match goal with
          | |- context [if (c =? ?k)%N then _ else _] =>
              destruct (N.eqb_spec c k); [subst c; reflexivity|]
          end).
  destruct (_ || _) eqn:Hesc.
  - apply unquote_body_UnicodeEscape.
    unfold is_high_surrogate, is_low_surrogate in Hesc.
    apply orb_true_iff in Hesc as [Hesc|Hesc]; [apply orb_true_iff in Hesc as [Hesc|Hesc]|].
    + apply N.ltb_lt in Hesc. lia.
    + apply andb_true_iff in Hesc as [_ Hesc]. apply N.leb_le in Hesc. lia.
    + apply andb_true_iff in Hesc as [_ Hesc]. apply N.leb_le in Hesc. lia.
  - by apply unquote_body_raw.
Qed.

Lemma quote_body_cons_cons (c d : N) (rest : jsstring) :
  quote_body (c :: d :: rest) =
    if is_high_surrogate c && is_low_surrogate d
    then c :: d :: quote_body rest
    else quote_unit c ++ quote_body (d :: rest).
Proof. reflexivity. Qed.

(** The whole string is read back, up to the closing quote; by induction on
    a bound of the length, as [quote_body] takes one or two code units at a
    time. *)
Lemma unquote_body_quote_body (n : nat) (s r : jsstring) :
  (length s <= n)%nat ->
  unquote_body (quote_body s ++ 34%N :: r) = Some (s, r).
Proof.
  revert s. induction n as [|n IH]; intros s Hlen.
  - destruct s; [done | simpl in Hlen; lia].
  - destruct s as [|c [|d rest]]; [done | |].
    + simpl quote_body. by rewrite unquote_body_quote_unit.
    + rewrite quote_body_cons_cons.
      destruct (is_high_surrogate c && is_low_surrogate d) eqn:Hpair.
      * apply andb_true_iff in Hpair as [Hc Hd].
        unfold is_high_surrogate in Hc. unfold is_low_surrogate in Hd.
        apply andb_true_iff in Hc as [Hc _]. apply andb_true_iff in Hd as [Hd _].
        apply N.leb_le in Hc, Hd.
        rewrite <- !app_comm_cons.
        rewrite unquote_body_raw by lia. rewrite unquote_body_raw by lia.
        rewrite IH; [done | simpl in Hlen; lia].
      * rewrite <- app_assoc, unquote_body_quote_unit.
        rewrite IH; [done | simpl in *; lia].
Qed.

(** A quoted string determines the string and what follows it. *)
Lemma QuoteJSONString_inj_prefix (s1 s2 r1 r2 : jsstring) :
  QuoteJSONString s1 ++ r1 = QuoteJSONString s2 ++ r2 -> s1 = s2 /\ r1 = r2.
Proof.
  unfold QuoteJSONString. intros Heq.
  rewrite <- !app_assoc in Heq. simpl in Heq. injection Heq as Heq.
  pose proof (unquote_body_quote_body (length s1) s1 r1 ltac:(done)) as H1.
  pose proof (unquote_body_quote_body (length s2) s2 r2 ltac:(done)) as H2.
  rewrite Heq in H1. rewrite H1 in H2. by injection H2.
Qed.

Lemma join_comma_cons (p : jsstring) (rest : list jsstring) :
  join_comma (p :: rest) = p ++ match rest with [] => [] | _ => 44%N :: join_comma rest end.
Proof. destruct rest; simpl; by rewrite ?app_nil_r. Qed.

(** The JSON text of an array of strings. *)
Lemma JSON_stringify_jsstrings (l : list jsstring) :
  JSON_stringify (jsstrings l) = Some (91%N :: join_comma (QuoteJSONString <$> l) ++ [93%N]).
Proof.
  assert (map (fun e => default (lit "null") (SerializeJSONProperty e)) (JStr <$> l)
          = QuoteJSONString <$> l) as Hmap.
  { induction l as [|s l IH]; [done|]. rewrite !fmap_cons. simpl. f_equal. apply IH. }
  unfold JSON_stringify, jsstrings. cbn [SerializeJSONProperty]. by rewrite Hmap.
Qed.

(** A decimal numeral begins with a digit or a minus sign. *)
Lemma pretty_N_go_head (x : N) (s : string) :
  (0 < x)%N -> exists d s', (d < 10)%N /\ pretty_N_go x s = String (pretty_N_char d) s'.
Proof.
  revert s. induction (N.lt_wf_0 x) as [x _ IH]; intros s Hx.
  rewrite pretty_N_go_step by done.
  destruct (decide (x `div` 10 = 0)%N) as [Hdiv|Hdiv].
  - rewrite Hdiv, pretty_N_go_0. exists (x `mod` 10)%N, s. split; [|done].
    by apply N.mod_lt.
  - apply IH; [by apply N.div_lt | by apply N.neq_0_lt_0].
Qed.

Lemma pretty_N_char_code (d : N) :
  (d < 10)%N -> N_of_ascii (pretty_N_char d) = (48 + d)%N.
Proof.
  intros Hd.
  assert (d = 0 \/ d = 1 \/ d = 2 \/ d = 3 \/ d = 4 \/ d = 5
          \/ d = 6 \/ d = 7 \/ d = 8 \/ d = 9)%N as Hcases by lia.
  by repeat (destruct Hcases as [->|Hcases]; [done|]); subst.
Qed.

Lemma pretty_pos_head (p : positive) :
  exists d s', (d < 10)%N /\ pretty (N.pos p) = String (pretty_N_char d) s'.
Proof.
  unfold pretty, pretty_N. rewrite decide_False by done.
  by apply pretty_N_go_head.
Qed.

Lemma Number_toString_head (z : Z) : not_a_string_start (Number_toString z).
Proof.
  unfold Number_toString, pretty, pretty_Z. destruct z as [|p|p].
  - by exists 48%N, [].
  - destruct (pretty_pos_head p) as (d & s' & Hd & Hp). unfold pretty, pretty_positive.
    rewrite Hp. eexists _, _. split; [reflexivity|].
    rewrite pretty_N_char_code by done. lia.
  - by eexists 45%N, _.
Qed.

(** The numeral of a number that is not an integer begins with a digit or a
    minus sign too. *)
Lemma Number_toString_dec_head (negative : bool) (significand : positive) (exponent : Z) :
  not_a_string_start (Number_toString_dec negative significand exponent).
Proof.
  unfold Number_toString_dec. destruct negative; [by eexists 45%N, _|].
  rewrite app_nil_l. unfold Number_toString_digits.
  destruct (fewest_digits _ significand exponent) as [s e].
  destruct (pretty_pos_head s) as (d & s' & Hd & Hp). rewrite Hp.
  assert (lit (String (pretty_N_char d) s') = (48 + d)%N :: lit s') as ->.
  { unfold lit. simpl. by rewrite pretty_N_char_code. }
  cbv zeta. set (k := Z.of_nat _). set (n := k + e).
  destruct ((k <=? n) && (n <=? 21)); [eexists _, _; split; [reflexivity|lia]|].
  destruct ((0 <? n) && (n <=? 21)) eqn:H2.
  { destruct (Z.to_nat n) eqn:Hn; [lia|]. eexists _, _; split; [reflexivity|lia]. }
  destruct ((-6 <? n) && (n <=? 0)); [by eexists _, _|].
  destruct (k =? 1); eexists _, _; (split; [reflexivity|lia]).
Qed.

(** The text of an element that is not a string does not begin with a
    quote. *)
Lemma element_text_head (e : jsval) :
  match e with
  | JStr s => element_text e = QuoteJSONString s
  | _ => not_a_string_start (element_text e)
  end.
Proof.
  destruct e as [| |[]|z|s|elems|fields|negative significand exponent|negative];
    try done; try (by eexists _, _; split; [reflexivity|]).
  - apply Number_toString_head.
  - apply Number_toString_dec_head.
Qed.

(** An array whose text is the text of an array of strings is that array of
    strings. *)
Lemma join_comma_texts_inj (elems : list jsval) (l : list jsstring) :
  join_comma (element_text <$> elems) ++ [93%N] = join_comma (QuoteJSONString <$> l) ++ [93%N] ->
  elems = JStr <$> l.
Proof.
  revert l. induction elems as [|e elems IH]; intros [|s l] Heq; [done | | |].
  - by rewrite fmap_cons, join_comma_cons in Heq.
  - rewrite fmap_cons, join_comma_cons, <- app_assoc in Heq.
    pose proof (element_text_head e) as He. destruct e;
      try (destruct He as (c & rest & Ht & _ & Hc); rewrite Ht in Heq;
           simpl in Heq; congruence).
    by rewrite He in Heq.
  - rewrite !fmap_cons, !join_comma_cons, <- !app_assoc in Heq.
    pose proof (element_text_head e) as He. destruct e;
      try (destruct He as (c & rest & Ht & Hc & _); rewrite Ht in Heq;
           simpl in Heq; congruence).
    rewrite He in Heq.
    apply QuoteJSONString_inj_prefix in Heq as [-> Heq]. rewrite fmap_cons. f_equal.
    destruct elems as [|a elems], l as [|b l]; [done | done | done |].
    apply IH. rewrite !fmap_cons in *. simpl in Heq. by injection Heq.
Qed.

(** The comparison of the two JSON texts decides equality of the arrays. *)
Lemma isCorrect_array_iff (elems : list jsval) (puzzle : Puzzle) :
  isCorrect (JArr elems) puzzle = true <-> elems = JStr <$> userMovesInSolution puzzle.
Proof.
  unfold isCorrect. rewrite bool_decide_eq_true. split.
  - pose proof (JSON_stringify_jsstrings (userMovesInSolution puzzle)) as Hexp.
    unfold jsstrings in Hexp. rewrite Hexp.
    unfold JSON_stringify. cbn [SerializeJSONProperty].
    intros [= Heq]. by apply join_comma_texts_inj.
  - by intros ->.
Qed.

Lemma isCorrect_iff_equal (moves : list jsstring) (puzzle : Puzzle) :
  isCorrect (jsstrings moves) puzzle = true <-> moves = userMovesInSolution puzzle.
Proof.
  unfold jsstrings. rewrite isCorrect_array_iff. split; [|by intros ->].
  revert moves. induction (userMovesInSolution puzzle) as [|s l IH];
    intros [|s' moves] Heq; try done.
  rewrite !fmap_cons in Heq. injection Heq as -> Heq. f_equal. by apply IH.
Qed.

Lemma mod_2_eqb_1_odd (n : nat) : (n mod 2 =? 1)%nat = Nat.odd n.
Proof.
  destruct (Nat.odd n) eqn:Hodd.
  - apply Nat.odd_spec in Hodd as [k ->].
    by rewrite Nat.add_comm, Nat.mul_comm, Nat.Div0.mod_add.
  - rewrite <- Nat.negb_even in Hodd. apply negb_false_iff, Nat.even_spec in Hodd as [k ->].
    by rewrite Nat.mul_comm, Nat.Div0.mod_mul.
Qed.

(** Filtering on odd indices, started at any index: element [j] of the result
    is element [2j] or [2j+1] of the array. *)
Lemma filter_from_odd_lookup {A : Type} (arr : list A) (index j : nat) :
  filter_from (fun _ i => (i mod 2 =? 1)%nat) index arr !! j
  = arr !! (2 * j + (if Nat.odd index then 0 else 1))%nat.
Proof.
  revert index j. induction arr as [|x arr IH]; intros index j.
  - simpl. by rewrite !lookup_nil.
  - cbn [filter_from]. specialize (IH (S index)). rewrite Nat.odd_succ in IH.
    rewrite mod_2_eqb_1_odd.
    rewrite <- Nat.negb_odd in IH.
    destruct (Nat.odd index); cbn [negb] in IH.
    + destruct j as [|j]; [done|].
      replace (2 * S j + 0)%nat with (S (2 * j + 1)) by lia.
      rewrite !lookup_cons. apply IH.
    + replace (2 * j + 1)%nat with (S (2 * j + 0)) by lia.
      rewrite lookup_cons. apply IH.
Qed.

Lemma userMovesInSolution_lookup (puzzle : Puzzle) (j : nat) :
  userMovesInSolution puzzle !! j = solution puzzle !! (2 * j + 1)%nat.
Proof. apply (filter_from_odd_lookup (solution puzzle) 0 j). Qed.

(** C2.  The user's expected moves are the elements of the puzzle's solution
    at the odd 0-based indices, in order.  A submitted array is found
    correct exactly when its elements are those strings, each in its place;
    so a submitted list of moves is found correct exactly when it is the
    expected list: the expected list itself is always correct, a list of
    another length or with another move at some position never is.  For the solution e7e5, Nf3, Nc6, Bb5 the expected
    moves are Nf3, Bb5; they validate, and Nf3, Nb5 does not. *)
Theorem solution_correct_iff_expected_moves
    (puzzle : Puzzle) (submitted : list jsval) (moves : list jsstring) :
  (forall j : nat, userMovesInSolution puzzle !! j = solution puzzle !! (2 * j + 1)%nat)
  /\ (isCorrect (JArr submitted) puzzle = true
      <-> submitted = JStr <$> userMovesInSolution puzzle)
  /\ (isCorrect (jsstrings moves) puzzle = true <-> moves = userMovesInSolution puzzle)
  /\ isCorrect (jsstrings (userMovesInSolution puzzle)) puzzle = true
  /\ (length moves <> length (userMovesInSolution puzzle) ->
      isCorrect (jsstrings moves) puzzle = false)
  /\ (forall j : nat, moves !! j <> userMovesInSolution puzzle !! j ->
      isCorrect (jsstrings moves) puzzle = false)
  /\ userMovesInSolution example_puzzle = [lit "Nf3"; lit "Bb5"]
  /\ isCorrect (jsstrings [lit "Nf3"; lit "Bb5"]) example_puzzle = true
  /\ isCorrect (jsstrings [lit "Nf3"; lit "Nb5"]) example_puzzle = false.
Proof.
  split; [apply userMovesInSolution_lookup|].
  split; [apply isCorrect_array_iff|].
  split; [apply isCorrect_iff_equal|].
  split; [by apply isCorrect_iff_equal|].
  split; [|split].
  - intros Hlen. apply not_true_is_false. intros Hok%isCorrect_iff_equal. by subst.
  - intros j Hj. apply not_true_is_false. intros Hok%isCorrect_iff_equal. by subst.
  - split; [done|]. split; [by apply isCorrect_iff_equal|].
    apply not_true_is_false. by intros Hok%isCorrect_iff_equal.
Qed.

Lemma solution_correct_iff_expected_moves_witness :
  isCorrect (jsstrings [lit "Nf3"]) example_puzzle = false
  /\ isCorrect (jsstrings [lit "Nf3"; lit "Nb5"]) example_puzzle = false.
Proof.
  pose proof (solution_correct_iff_expected_moves example_puzzle [] [lit "Nf3"])
    as (_ & _ & _ & _ & Hlen & _).
  pose proof (solution_correct_iff_expected_moves example_puzzle [] [lit "Nf3"; lit "Nb5"])
    as (_ & _ & _ & _ & _ & Hmove & _).
  split.
  - apply Hlen. simpl. lia.
  - apply (Hmove 1%nat). simpl. discriminate.
Defined.

(** ** The handlers *)

Lemma Array_isArray_truthy (v : jsval) : Array_isArray v = true -> truthy v = true.
Proof. by destruct v. Qed.

(** Unfolding a handler down to the calls it makes. *)
Ltac run_handler :=
  unfold serve, handler, api_puzzle_solve, api_balance, api_receive, api_donate,
    api_donate_check, api_puzzle, health, try_catch, bind, ret, throw, await,
    with_rateLimitMap, catch_500;
  cbn [prog_bind run fst snd negb orb andb allowed message].

(** Following every branch of a handler: each test and each outcome of a
    collaborator call. *)
Ltac branch_handler impl :=
  repeat (run_handler;
          match goal with
          | |- context [perform impl ?c ?w] =>
              destruct (perform impl c w) as [[?|?] ?]
          | |- context [checkRateLimit ?c ?n ?i ?m] =>
              destruct (checkRateLimit c n i m) as [? ?]
          | |- context [if ?b then _ else _] => destruct b
          | |- context [match find_puzzle ?ps ?i with _ => _ end] =>
              destruct (find_puzzle ps i)
          | |- context [match ?l !! ?i with _ => _ end] => destruct (l !! i)
          end).

Section HandlerFacts.
Context (cfg : Config) (puzzlesData : list Puzzle) (coerced_lt_1 : jsval -> bool).
Context {W : Type} (impl : Collaborator W).

(** The solve handler, branch by branch. *)
Lemma well_formed_passes (req : Request) :
  well_formed req ->
  negb (truthy (get_prop (body req) "puzzleId"))
  || negb (truthy (get_prop (body req) "moves"))
  || negb (Array_isArray (get_prop (body req) "moves")) = false.
Proof. intros [Hid Hmoves]. by rewrite Hid, Hmoves, (Array_isArray_truthy _ Hmoves). Qed.

Lemma solve_malformed (now : Z) (req : Request) (m : RateLimitMap) (w : W) :
  get_prop (body req) "puzzleId" = JUndefined
  \/ get_prop (body req) "moves" = JUndefined
  \/ Array_isArray (get_prop (body req) "moves") = false ->
  serve cfg puzzlesData coerced_lt_1 impl (POST_api_puzzle_solve now) req m w
  = (inr (res_status_json 400
            (error_body (lit "Invalid request. Provide puzzleId and moves array."))),
     m, w, []).
Proof.
  intros Hbad.
  assert (negb (truthy (get_prop (body req) "puzzleId"))
          || negb (truthy (get_prop (body req) "moves"))
          || negb (Array_isArray (get_prop (body req) "moves")) = true) as Hshape.
  { destruct Hbad as [-> | [-> | ->]]; [done | | ].
    - by rewrite orb_true_r.
    - by rewrite orb_true_r. }
  run_handler. rewrite Hshape. run_handler. done.
Qed.

(** Whatever happens after the rate-limit check, the map is left as the check
    made it. *)
Lemma solve_map_after (now : Z) (req : Request) (m : RateLimitMap) (w : W) :
  well_formed req ->
  (serve cfg puzzlesData coerced_lt_1 impl (POST_api_puzzle_solve now) req m w).1.1.2
  = (checkRateLimit cfg now (clientIp_of req) m).2.
Proof.
  intros Hwf. run_handler. rewrite (well_formed_passes _ Hwf).
  destruct (checkRateLimit cfg now (clientIp_of req) m) as [chk m'].
  branch_handler impl; reflexivity.
Qed.

Lemma solve_denied (now : Z) (req : Request) (m : RateLimitMap) (w : W) :
  well_formed req ->
  allowed (checkRateLimit cfg now (clientIp_of req) m).1 = false ->
  serve cfg puzzlesData coerced_lt_1 impl (POST_api_puzzle_solve now) req m w
  = (inr (res_status_json 429
            (JObj [(lit "error", opt_str (message (checkRateLimit cfg now (clientIp_of req) m).1))])),
     (checkRateLimit cfg now (clientIp_of req) m).2, w, []).
Proof.
  intros Hwf Hden. run_handler. rewrite (well_formed_passes _ Hwf).
  destruct (checkRateLimit cfg now (clientIp_of req) m) as [chk m'].
  simpl in Hden. run_handler. rewrite Hden. run_handler. done.
Qed.

Lemma solve_insufficient (now : Z) (req : Request) (m : RateLimitMap) (w w' : W)
    (puzzle : Puzzle) (balances : gmap jsstring Z) :
  well_formed req ->
  allowed (checkRateLimit cfg now (clientIp_of req) m).1 = true ->
  find_puzzle puzzlesData (get_prop (body req) "puzzleId") = Some puzzle ->
  isCorrect (get_prop (body req) "moves") puzzle = true ->
  perform impl getBalances w = (inr balances, w') ->
  balance_or_0 balances (activeMint cfg) < puzzleReward cfg ->
  serve cfg puzzlesData coerced_lt_1 impl (POST_api_puzzle_solve now) req m w
  = (inr (res_status_json 503
            (error_body (lit "Insufficient funds in puzzle pot. Please ask someone to donate!"))),
     <[clientIp_of req := now]> m, w', [Invoked getBalances (inr balances)]).
Proof.
  intros Hwf Hal Hfind Hok Hbal Hlt. run_handler. rewrite (well_formed_passes _ Hwf).
  rewrite (checkRateLimit_allowed_records _ _ _ _ Hal). unfold allow_and_record.
  run_handler. rewrite Hfind. run_handler. rewrite Hok. run_handler. rewrite Hbal.
  run_handler. apply Z.ltb_lt in Hlt. rewrite Hlt. run_handler. done.
Qed.

Lemma balance_total (req : Request) (m : RateLimitMap) (w w' : W) (balances : gmap jsstring Z) :
  perform impl getBalances w = (inr balances, w') ->
  exists resp,
    (serve cfg puzzlesData coerced_lt_1 impl GET_api_balance req m w).1.1.1 = inr resp
    /\ status resp = 200
    /\ get_prop (json resp) "balances" = balances_json balances
    /\ get_prop (json resp) "total" = JNum (default 0 (balances !! activeMint cfg)).
Proof.
  intros Hbal. run_handler. rewrite Hbal. run_handler.
  eexists. split; [reflexivity|]. split; [done|]. split; reflexivity.
Qed.
End HandlerFacts.

(** C8.  A solve request without [puzzleId], without [moves], or whose
    [moves] is not an array is answered 400 before the rate limiter is
    consulted: the rate-limit map is the one the request found, and no
    collaborator is called. *)
Theorem malformed_solve_request_is_400_and_leaves_map
    (cfg : Config) (puzzlesData : list Puzzle) (coerced_lt_1 : jsval -> bool)
    {W : Type} (impl : Collaborator W)
    (now : Z) (req : Request) (m : RateLimitMap) (w : W) :
  get_prop (body req) "puzzleId" = JUndefined
  \/ get_prop (body req) "moves" = JUndefined
  \/ Array_isArray (get_prop (body req) "moves") = false ->
  exists resp,
    serve cfg puzzlesData coerced_lt_1 impl (POST_api_puzzle_solve now) req m w
    = (inr resp, m, w, [])
    /\ status resp = 400.
Proof.
  intros Hbad. eexists. split; [by apply solve_malformed | done].
Qed.

Lemma malformed_solve_request_is_400_and_leaves_map_witness :
  exists resp,
    serve (config None) [example_puzzle] no_coercion pot_wallet (POST_api_puzzle_solve 1000)
      (solve_request (JStr (lit "00sHx")) (JStr (lit "Nf3")))
      {[ example_ip := 500 ]} ∅
    = (inr resp, {[ example_ip := 500 ]}, ∅, [])
    /\ status resp = 400.
Proof.
  apply malformed_solve_request_is_400_and_leaves_map.
  right. right. reflexivity.
Defined.

(** C5.  A solve request that passes the shape check and the rate limiter
    leaves the rate-limit map as the old one with the client's entry set to
    the clock reading of the check, whatever the moves it submits, whatever
    the puzzle database holds and whatever the collaborators do afterwards:
    correct, incorrect or naming an unknown puzzle, the request changes the
    map in this and in no other way.  The attempt then counts against the
    cooldown: the clock not reading [0], the next solve request of the same
    client that comes before the cooldown has passed is answered 429 with
    the seconds left, calls nothing and leaves the map alone, again
    whatever it submits. *)
Theorem attempt_is_recorded_whatever_the_solution
    (cfg : Config) (puzzlesData : list Puzzle) (coerced_lt_1 : jsval -> bool)
    {W : Type} (impl : Collaborator W)
    (now : Z) (req : Request) (m : RateLimitMap) (w : W) :
  well_formed req ->
  allowed (checkRateLimit cfg now (clientIp_of req) m).1 = true ->
  let m' := (serve cfg puzzlesData coerced_lt_1 impl (POST_api_puzzle_solve now) req m w).1.1.2 in
  m' = <[clientIp_of req := now]> m
  /\ (now <> 0 ->
      forall (puzzlesData' : list Puzzle) (coerced_lt_1' : jsval -> bool)
             (impl' : Collaborator W) (now' : Z) (req' : Request) (w' : W),
        well_formed req' ->
        clientIp_of req' = clientIp_of req ->
        now' - now < rateLimitMs cfg ->
        serve cfg puzzlesData' coerced_lt_1' impl' (POST_api_puzzle_solve now') req' m' w'
        = (inr (res_status_json 429
                  (error_body (slow_down_message cfg (secondsRemaining cfg (now' - now))))),
           m', w', [])).
Proof.
  intros Hwf Hal m'.
  assert (m' = <[clientIp_of req := now]> m) as Hm'.
  { unfold m'. rewrite solve_map_after by done.
    by rewrite (checkRateLimit_allowed_records _ _ _ _ Hal). }
  split; [exact Hm'|].
  intros Hnow puzzlesData' coerced_lt_1' impl' now' req' w' Hwf' Hip Hsoon.
  assert (checkRateLimit cfg now' (clientIp_of req') m'
          = ({| allowed := false;
                message := Some (slow_down_message cfg (secondsRemaining cfg (now' - now))) |},
             m')) as Hden.
  { apply checkRateLimit_too_soon; [|done|done].
    by rewrite Hm', Hip, lookup_insert_eq. }
  rewrite solve_denied; [|done|by rewrite Hden].
  by rewrite Hden.
Qed.

Lemma attempt_is_recorded_whatever_the_solution_witness :
  let first := solve_request (JStr (lit "no such puzzle")) (jsstrings [lit "Nf3"; lit "Nb5"]) in
  let second := solve_request (JStr (lit "00sHx")) (jsstrings [lit "Nf3"; lit "Bb5"]) in
  let m' := (serve (config None) [example_puzzle] no_coercion pot_wallet
               (POST_api_puzzle_solve 1000) first ∅ ∅).1.1.2 in
  m' = <[example_ip := 1000]> ∅
  /\ serve (config None) [example_puzzle] no_coercion pot_wallet
       (POST_api_puzzle_solve 4000) second m' ∅
     = (inr (res_status_json 429
               (error_body (slow_down_message (config None)
                              (secondsRemaining (config None) (4000 - 1000))))),
        m', ∅, []).
Proof.
  intros first second m'.
  destruct (attempt_is_recorded_whatever_the_solution (config None) [example_puzzle] no_coercion
              pot_wallet 1000 first ∅ ∅) as [Hmap Hnext].
  - split; reflexivity.
  - reflexivity.
  - split; [exact Hmap|].
    apply (Hnext ltac:(discriminate) [example_puzzle] no_coercion pot_wallet 4000 second ∅).
    + split; reflexivity.
    + reflexivity.
    + reflexivity.
Defined.

(** C3, as the code has it.  A solve request that passes the shape check and
    the rate limiter and carries the correct moves of a known puzzle, when
    the wallet reports a balance of the active mint below the reward, is
    answered 503 with an error body.  The only call made is the balance
    query: [send] is not invoked, no token is made, and the wallet is left
    in the state the balance query left it in. *)
Theorem insufficient_funds_is_503_without_send
    (cfg : Config) (puzzlesData : list Puzzle) (coerced_lt_1 : jsval -> bool)
    {W : Type} (impl : Collaborator W)
    (now : Z) (req : Request) (m : RateLimitMap) (w w' : W)
    (puzzle : Puzzle) (balances : gmap jsstring Z) :
  well_formed req ->
  allowed (checkRateLimit cfg now (clientIp_of req) m).1 = true ->
  find_puzzle puzzlesData (get_prop (body req) "puzzleId") = Some puzzle ->
  isCorrect (get_prop (body req) "moves") puzzle = true ->
  perform impl getBalances w = (inr balances, w') ->
  balance_or_0 balances (activeMint cfg) < puzzleReward cfg ->
  exists msg evs,
    serve cfg puzzlesData coerced_lt_1 impl (POST_api_puzzle_solve now) req m w
    = (inr (res_status_json 503 (error_body msg)), <[clientIp_of req := now]> m, w', evs)
    /\ evs = [Invoked getBalances (inr balances)]
    /\ existsb (fun ev => is_send (event_call ev)) evs = false.
Proof.
  intros Hwf Hal Hfind Hok Hbal Hlt.
  exists (lit "Insufficient funds in puzzle pot. Please ask someone to donate!"),
    [Invoked getBalances (inr balances)].
  split; [by apply solve_insufficient with (puzzle := puzzle) | done].
Qed.

Lemma insufficient_funds_is_503_without_send_witness :
  let cfg := config None in
  let pot : gmap jsstring Z := {[ activeMint cfg := 5 ]} in
  exists msg evs,
    serve cfg [example_puzzle] no_coercion pot_wallet (POST_api_puzzle_solve 1000)
      (solve_request (JStr (lit "00sHx")) (jsstrings [lit "Nf3"; lit "Bb5"])) ∅ pot
    = (inr (res_status_json 503 (error_body msg)), <[example_ip := 1000]> ∅, pot, evs)
    /\ evs = [Invoked getBalances (inr pot)]
    /\ existsb (fun ev => is_send (event_call ev)) evs = false.
Proof.
  intros cfg pot.
  apply (insufficient_funds_is_503_without_send cfg [example_puzzle] no_coercion pot_wallet
           1000 (solve_request (JStr (lit "00sHx")) (jsstrings [lit "Nf3"; lit "Bb5"]))
           ∅ pot pot example_puzzle pot).
  - split; reflexivity.
  - reflexivity.
  - reflexivity.
  - vm_compute. reflexivity.
  - reflexivity.
  - vm_compute. reflexivity.
Defined.

(** C3 as stated fails: a correct solution sent two seconds after the
    client's last attempt, with 5 sats in the pot against a reward of 10, is
    answered 429 by the rate limiter, not 503. *)
Lemma correct_solution_too_soon_is_429_not_503 :
  let cfg := config None in
  let pot : gmap jsstring Z := {[ activeMint cfg := 5 ]} in
  let req := solve_request (JStr (lit "00sHx")) (jsstrings [lit "Nf3"; lit "Bb5"]) in
  isCorrect (get_prop (body req) "moves") example_puzzle = true
  /\ balance_or_0 pot (activeMint cfg) = 5
  /\ puzzleReward cfg = 10
  /\ exists resp,
      (serve cfg [example_puzzle] no_coercion pot_wallet (POST_api_puzzle_solve 3000)
         req {[ example_ip := 1000 ]} pot).1.1.1 = inr resp
      /\ status resp = 429
      /\ status resp <> 503.
Proof.
  intros cfg pot req.
  split; [by vm_compute|]. split; [by vm_compute|]. split; [done|].
  eexists. split; [vm_compute; reflexivity|]. by split.
Qed.




(** C7, as the code has it.  Every handler ends with a response, never with
    an uncaught error.  When a collaborator call of the request failed with
    error [e], the response is 500 with the body [{ error: e.message }] on
    every route but the donation check, where it is 200 with
    [{ paid: false, error: e.message }]. *)
Theorem collaborator_failure_is_caught
    (cfg : Config) (puzzlesData : list Puzzle) (coerced_lt_1 : jsval -> bool)
    {W : Type} (impl : Collaborator W)
    (ep : Endpoint) (req : Request) (m : RateLimitMap) (w : W) :
  exists resp,
    (serve cfg puzzlesData coerced_lt_1 impl ep req m w).1.1.1 = inr resp
    /\ forall ev e,
        ev ∈ (serve cfg puzzlesData coerced_lt_1 impl ep req m w).2 ->
        event_failed ev = Some e ->
        resp = match ep with
               | GET_api_donate_check =>
                   res_json (JObj [(lit "paid", JBool false);
                                   (lit "error", JStr (err_message e))])
               | _ => res_status_json 500 (error_body (err_message e))
               end.
Proof.
  destruct ep; branch_handler impl;
    (eexists; split; [reflexivity|]);
    intros ev e' Hin Hfail;
    repeat (apply elem_of_cons in Hin as [-> | Hin]);
    try (by apply elem_of_nil in Hin);
    simpl in Hfail; try discriminate; by injection Hfail as ->.
Qed.

Lemma collaborator_failure_is_caught_witness :
  let req := solve_request (JStr (lit "00sHx")) (jsstrings [lit "Nf3"; lit "Bb5"]) in
  (serve (config None) [example_puzzle] no_coercion offline_wallet (POST_api_puzzle_solve 1000)
     req ∅ tt).1.1.1
  = inr (res_status_json 500 (error_body (lit "fetch failed"))).
Proof.
  intros req.
  destruct (collaborator_failure_is_caught (config None) [example_puzzle] no_coercion
              offline_wallet (POST_api_puzzle_solve 1000) req ∅ tt) as (resp & Hresp & Hfail).
  rewrite Hresp. f_equal.
  apply (Hfail (Invoked getBalances (inl {| err_message := lit "fetch failed" |}))
                {| err_message := lit "fetch failed" |}).
  - vm_compute. apply list_elem_of_here.
  - reflexivity.
Defined.

(** C7 as stated fails: on the donation check, a failure of the wallet (here
    an unpaid quote, or a mint that cannot be reached) is answered with
    status 200 and [paid: false], not with 500. *)
Lemma donate_check_failure_is_200_not_500 :
  let req := solve_request JUndefined JUndefined in
  let out := serve (config None) [example_puzzle] no_coercion offline_wallet
               GET_api_donate_check req ∅ tt in
  event_failed <$> out.2 = [Some {| err_message := lit "fetch failed" |}]
  /\ out.1.1.1 = inr (res_json (JObj [(lit "paid", JBool false);
                                      (lit "error", JStr (lit "fetch failed"))]))
  /\ status (res_json (JObj [(lit "paid", JBool false);
                             (lit "error", JStr (lit "fetch failed"))])) <> 500.
Proof.
  intros req out. split; [by vm_compute|]. split; [by vm_compute|]. done.
Qed.

(** C10.  When the wallet reports its balances, the balance route answers
    200 with them and a [total] that is the balance of the active mint, 0
    when the wallet has no entry for it.  It is not the sum over the mints:
    with 5 sats at the active mint and 7 at the other, [total] is 5. *)
Theorem balance_total_is_active_mint_balance :
  (forall (cfg : Config) (puzzlesData : list Puzzle) (coerced_lt_1 : jsval -> bool)
          (W : Type) (impl : Collaborator W)
          (req : Request) (m : RateLimitMap) (w w' : W) (balances : gmap jsstring Z),
      perform impl getBalances w = (inr balances, w') ->
      exists resp,
        (serve cfg puzzlesData coerced_lt_1 impl GET_api_balance req m w).1.1.1 = inr resp
        /\ status resp = 200
        /\ get_prop (json resp) "balances" = balances_json balances
        /\ get_prop (json resp) "total"
           = JNum (match balances !! activeMint cfg with Some b => b | None => 0 end))
  /\ (let cfg := config None in
      let pot : gmap jsstring Z := {[ testMint cfg := 5; mainMint cfg := 7 ]} in
      sum_of_balances pot = 12
      /\ exists resp,
          (serve cfg [] no_coercion pot_wallet GET_api_balance
             (solve_request JUndefined JUndefined) ∅ pot).1.1.1 = inr resp
          /\ get_prop (json resp) "total" = JNum 5).
Proof.
  split.
  - intros cfg puzzlesData coerced_lt_1 W impl req m w w' balances Hbal.
    destruct (balance_total cfg puzzlesData coerced_lt_1 impl req m w w' balances Hbal)
      as (resp & H1 & H2 & H3 & H4).
    exists resp. by repeat split.
  - intros cfg pot. split; [by vm_compute|].
    eexists. split; [vm_compute; reflexivity | by vm_compute].
Qed.

Lemma balance_total_is_active_mint_balance_witness :
  let cfg := config None in
  let pot : gmap jsstring Z := {[ mainMint cfg := 7 ]} in
  exists resp,
    (serve cfg [] no_coercion pot_wallet GET_api_balance
       (solve_request JUndefined JUndefined) ∅ pot).1.1.1 = inr resp
    /\ status resp = 200
    /\ get_prop (json resp) "balances" = balances_json pot
    /\ get_prop (json resp) "total" = JNum 0.
Proof.
  intros cfg pot.
  apply (proj1 balance_total_is_active_mint_balance cfg [] no_coercion _ pot_wallet
           (solve_request JUndefined JUndefined) ∅ pot pot pot).
  reflexivity.
Defined.

(** * Further properties of the rate limiter *)

(** X1.  [checkRateLimit] for one client reads and writes that client's
    entry only: the entry of any other client is left as it was, and what
    the other client is answered next, at any time, is what it would have
    been answered without this call. *)
Theorem checkRateLimit_clients_are_independent
    (cfg : Config) (now : Z) (ip ip' : ClientKey) (m : RateLimitMap) :
  ip <> ip' ->
  (checkRateLimit cfg now ip m).2 !! ip' = m !! ip'
  /\ forall now' : Z,
      (checkRateLimit cfg now' ip' (checkRateLimit cfg now ip m).2).1
      = (checkRateLimit cfg now' ip' m).1.
Proof.
  intros Hne.
  assert ((checkRateLimit cfg now ip m).2 !! ip' = m !! ip') as Hframe.
  { destruct (checkRateLimit_cases cfg now ip m) as [-> | (t & _ & _ & _ & ->)]; simpl.
    - by rewrite lookup_insert_ne.
    - done. }
  split; [done|]. intros now'. by apply checkRateLimit_answer_local.
Qed.

Lemma checkRateLimit_clients_are_independent_witness :
  let cfg := config None in
  let other : ClientKey := Some (lit "198.51.100.4") in
  let m : RateLimitMap := {[ other := 1000 ]} in
  (checkRateLimit cfg 2000 example_ip m).2 !! other = m !! other
  /\ forall now' : Z,
      (checkRateLimit cfg now' other (checkRateLimit cfg 2000 example_ip m).2).1
      = (checkRateLimit cfg now' other m).1.
Proof.
  intros cfg other m. apply checkRateLimit_clients_are_independent. discriminate.
Defined.

(** While the clock stays inside the cooldown of a recorded attempt, nothing
    the program does to the map moves that record: the client's own further
    attempts are denied, other clients write elsewhere, a sweep keeps it. *)
Lemma apply_ops_keeps_entry (cfg : Config) (ip : ClientKey) (t1 : Z)
    (ops : list map_op) (m : RateLimitMap) :
  0 <= rateLimitSeconds cfg ->
  t1 <> 0 ->
  m !! ip = Some t1 ->
  Forall (fun op => op_time op < t1 + rateLimitMs cfg) ops ->
  apply_ops cfg ops m !! ip = Some t1.
Proof.
  intros Hcfg Ht1 Hm Hops. revert m Hm.
  induction Hops as [|op ops Hop _ IH]; intros m Hm; [done|].
  unfold apply_ops in *. simpl. apply IH. destruct op as [ip' now | now]; simpl in *.
  - destruct (decide (ip' = ip)) as [->|Hne].
    + rewrite (checkRateLimit_too_soon cfg now ip m t1); [done | done | done | lia].
    + destruct (checkRateLimit_clients_are_independent cfg now ip' ip m Hne) as [-> _]. done.
  - rewrite cleanup_lookup, Hm. unfold stale.
    destruct (Z.ltb_spec (rateLimitMs cfg * 10) (now - t1)); [|done].
    unfold rateLimitMs in *. lia.
Qed.

(** X2.  The cooldown holds against everything that happens in between.
    After an attempt of a client was allowed at clock reading [t1] (not 0),
    let any sequence of attempts (of this or other clients) and sweeps run
    while the clock is before [t1 + cooldown]: the client's entry is still
    [t1]; a further attempt of the client before [t1 + cooldown] is denied,
    and one at [t1 + cooldown] or later is allowed.  Denied attempts do not
    prolong the wait. *)
Theorem cooldown_holds_through_other_activity
    (cfg : Config) (ip : ClientKey) (t1 : Z) (ops : list map_op) (m : RateLimitMap) :
  0 <= rateLimitSeconds cfg ->
  t1 <> 0 ->
  allowed (checkRateLimit cfg t1 ip m).1 = true ->
  Forall (fun op => op_time op < t1 + rateLimitMs cfg) ops ->
  let m' := apply_ops cfg ops (checkRateLimit cfg t1 ip m).2 in
  m' !! ip = Some t1
  /\ (forall t2, t2 < t1 + rateLimitMs cfg -> allowed (checkRateLimit cfg t2 ip m').1 = false)
  /\ (forall t2, t1 + rateLimitMs cfg <= t2 -> allowed (checkRateLimit cfg t2 ip m').1 = true).
Proof.
  intros Hcfg Ht1 Hal Hops m'.
  assert (m' !! ip = Some t1) as Hm'.
  { unfold m'. apply apply_ops_keeps_entry; try done.
    rewrite (checkRateLimit_allowed_records _ _ _ _ Hal). simpl. by rewrite lookup_insert_eq. }
  split; [done|]. split; intros t2 Ht2.
  - rewrite (checkRateLimit_too_soon cfg t2 ip m' t1); [done | done | done | lia].
  - rewrite (checkRateLimit_cooled_down cfg t2 ip m' t1); [done | done | lia].
Qed.

Lemma cooldown_holds_through_other_activity_witness :
  let cfg := config None in
  let other : ClientKey := Some (lit "198.51.100.4") in
  let ops := [Attempt example_ip 2000; Attempt other 2500; Sweep 3000; Attempt example_ip 5999] in
  let m' := apply_ops cfg ops (checkRateLimit cfg 1000 example_ip ∅).2 in
  m' !! example_ip = Some 1000
  /\ (forall t2, t2 < 1000 + rateLimitMs cfg ->
      allowed (checkRateLimit cfg t2 example_ip m').1 = false)
  /\ (forall t2, 1000 + rateLimitMs cfg <= t2 ->
      allowed (checkRateLimit cfg t2 example_ip m').1 = true).
Proof.
  intros cfg other ops.
  apply (cooldown_holds_through_other_activity cfg example_ip 1000 ops ∅).
  - simpl. lia.
  - lia.
  - reflexivity.
  - unfold ops, rateLimitMs. simpl. repeat constructor; simpl; lia.
Defined.





(** X5.  Sweeps only remove, and a later sweep makes an earlier one
    redundant: sweeping at [now1] and then at [now2 >= now1] leaves the map
    a single sweep at [now2] leaves.  In particular sweeping twice at the
    same clock reading is sweeping once. *)
Theorem cleanup_only_removes_and_later_sweep_subsumes
    (cfg : Config) (now1 now2 : Z) (m : RateLimitMap) :
  now1 <= now2 ->
  cleanup cfg now1 m ⊆ m
  /\ cleanup cfg now2 (cleanup cfg now1 m) = cleanup cfg now2 m.
Proof.
  intros Hle. split.
  - apply map_subseteq_spec. intros ip t. rewrite cleanup_lookup.
    destruct (m !! ip) as [t'|]; [|done]. by destruct (stale cfg now1 t').
  - apply map_eq. intros ip. rewrite !cleanup_lookup.
    destruct (m !! ip) as [t|]; [|done]. unfold stale.
    destruct (Z.ltb_spec (rateLimitMs cfg * 10) (now1 - t));
      destruct (Z.ltb_spec (rateLimitMs cfg * 10) (now2 - t)); try done; lia.
Qed.

Lemma cleanup_only_removes_and_later_sweep_subsumes_witness :
  let cfg := config None in
  let m : RateLimitMap := {[ example_ip := 1000 ]} in
  cleanup cfg 40000 m ⊆ m
  /\ cleanup cfg 60000 (cleanup cfg 40000 m) = cleanup cfg 60000 m.
Proof.
  intros cfg m. apply cleanup_only_removes_and_later_sweep_subsumes. lia.
Defined.

(** * Further properties of the handlers *)

Lemma not_well_formed_shape (req : Request) :
  negb (truthy (get_prop (body req) "puzzleId"))
  || negb (truthy (get_prop (body req) "moves"))
  || negb (Array_isArray (get_prop (body req) "moves")) = true ->
  ~ well_formed req.
Proof.
  intros Hshape [Hid Hmoves].
  by rewrite Hid, Hmoves, (Array_isArray_truthy _ Hmoves) in Hshape.
Qed.

(** Every run of the solve handler is one of the eleven. *)
Lemma serve_solve_run (cfg : Config) (puzzlesData : list Puzzle) (coerced_lt_1 : jsval -> bool)
    {W : Type} (impl : Collaborator W) (now : Z) (req : Request) (m : RateLimitMap) (w : W) :
  solve_run cfg puzzlesData impl now req m w
    (serve cfg puzzlesData coerced_lt_1 impl (POST_api_puzzle_solve now) req m w).
Proof.
  run_handler.
  destruct (negb (truthy (get_prop (body req) "puzzleId")) || _ || _) eqn:Hshape.
  { run_handler. by apply solve_malformed_run, not_well_formed_shape. }
  assert (well_formed req) as Hwf.
  { apply orb_false_iff in Hshape as [Hshape Harr].
    apply orb_false_iff in Hshape as [Hid _].
    split; by apply negb_false_iff. }
  destruct (checkRateLimit_cases cfg now (clientIp_of req) m)
    as [Hchk | (t & _ & _ & _ & Hchk)].
  2:{ rewrite Hchk. run_handler. by eapply solve_denied_run. }
  assert (allowed (checkRateLimit cfg now (clientIp_of req) m).1 = true) as Hal
    by (by rewrite Hchk).
  rewrite Hchk. unfold allow_and_record. run_handler.
  destruct (find_puzzle puzzlesData (get_prop (body req) "puzzleId")) as [puzzle|] eqn:Hfind.
  2:{ run_handler. by apply solve_not_found_run. }
  destruct (isCorrect (get_prop (body req) "moves") puzzle) eqn:Hok; run_handler.
  2:{ by eapply solve_incorrect_run. }
  assert (reaches_wallet cfg puzzlesData now req m puzzle) as Hreach by done.
  destruct (perform impl getBalances w) as [[e|balances] w1] eqn:H1; run_handler.
  { by eapply solve_balance_query_failed_run. }
  destruct (Z.ltb_spec (balance_or_0 balances (activeMint cfg)) (puzzleReward cfg)) as [Hlt|Hge];
    run_handler.
  { by eapply solve_insufficient_run. }
  destruct (perform impl (send _ _) w1) as [[e|token] w2] eqn:H2; run_handler.
  { by eapply solve_send_failed_run. }
  destruct (perform impl (getEncodedToken token) w2) as [[e|tokenString] w3] eqn:H3; run_handler.
  { by eapply solve_encoding_failed_run. }
  destruct (perform impl (QRCode_toDataURL tokenString) w3) as [[e|qrCode] w4] eqn:H4;
    run_handler.
  { by eapply solve_qr_failed_run. }
  destruct (perform impl getBalances w4) as [[e|newBalance] w5] eqn:H5; run_handler.
  { by eapply solve_new_balance_failed_run. }
  by eapply solve_paid_run.
Qed.

Set Warnings "-clear-no-such-hyp".

(** Closing a row of the table that the run at hand contradicts. *)
(** Closing a row of the table that the run at hand contradicts. *)
Ltac absurd_row :=
  exfalso;
  repeat match goal with
    | H : forall ev, ev ∈ ?l -> event_failed ev = None |- _ =>
        apply Forall_forall in H; repeat (apply Forall_cons in H as [? H])
    | H : _ /\ _ |- _ => destruct H
    | H : exists _, _ |- _ => destruct H
    | H : _ \/ _ |- _ => destruct H
    | H : forall p, ?f = Some p -> _, Hf : ?f = Some _ |- _ => specialize (H _ Hf)
    | H1 : perform ?i ?c ?w = _, H2 : perform ?i ?c ?w = _ |- _ => rewrite H1 in H2
    | H : _ ∈ [] |- _ => by apply elem_of_nil in H
    | H : _ ∈ _ :: _ |- _ => apply elem_of_cons in H
    end;
  subst; simpl in *; simplify_eq; try done; try lia; try congruence.

(** X6.  The status of the answer to a solve request tells what happened,
    and nothing else gives that status.  400: the body is malformed, or the
    limiter let the request through and the puzzle is unknown or the moves
    are not the expected ones.  429: the body is well formed and the limiter
    denied.  503: the request reached the wallet and the balance reported
    for the active mint is below the reward.  500: a collaborator call
    failed.  200: [send] was called and no call failed. *)
Theorem solve_status_table
    (cfg : Config) (puzzlesData : list Puzzle) (coerced_lt_1 : jsval -> bool)
    {W : Type} (impl : Collaborator W) (now : Z) (req : Request) (m : RateLimitMap) (w : W) :
  let out := serve cfg puzzlesData coerced_lt_1 impl (POST_api_puzzle_solve now) req m w in
  let chk := (checkRateLimit cfg now (clientIp_of req) m).1 in
  exists resp,
    out.1.1.1 = inr resp
    /\ (status resp = 400 <->
        ~ well_formed req
        \/ (allowed chk = true
            /\ forall p, find_puzzle puzzlesData (get_prop (body req) "puzzleId") = Some p ->
                         isCorrect (get_prop (body req) "moves") p = false))
    /\ (status resp = 429 <-> well_formed req /\ allowed chk = false)
    /\ (status resp = 503 <->
        exists p balances w1,
          reaches_wallet cfg puzzlesData now req m p
          /\ perform impl getBalances w = (inr balances, w1)
          /\ balance_or_0 balances (activeMint cfg) < puzzleReward cfg)
    /\ (status resp = 500 <-> exists ev e, ev ∈ out.2 /\ event_failed ev = Some e)
    /\ (status resp = 200 <->
        (exists ev, ev ∈ out.2 /\ is_send (event_call ev) = true)
        /\ forall ev, ev ∈ out.2 -> event_failed ev = None).
Proof.
  intros out chk.
  pose proof (serve_solve_run cfg puzzlesData coerced_lt_1 impl now req m w) as Hrun.
  fold out in Hrun. unfold chk. clearbody out.
  inversion Hrun as
    [Hwf | msg Hwf Hchk | Hwf Hal Hfind | p Hwf Hal Hfind Hok
     | p e w1 (Hwf & Hal & Hfind & Hok) H1
     | p b w1 (Hwf & Hal & Hfind & Hok) H1 Hlt
     | p b e w1 w2 (Hwf & Hal & Hfind & Hok) H1 Hge H2
     | p b tok e w1 w2 w3 (Hwf & Hal & Hfind & Hok) H1 Hge H2 H3
     | p b tok ts e w1 w2 w3 w4 (Hwf & Hal & Hfind & Hok) H1 Hge H2 H3 H4
     | p b tok ts qr e w1 w2 w3 w4 w5 (Hwf & Hal & Hfind & Hok) H1 Hge H2 H3 H4 H5
     | p b nb tok ts qr w1 w2 w3 w4 w5 (Hwf & Hal & Hfind & Hok) H1 Hge H2 H3 H4 H5];
    subst out; clear Hrun; (eexists; split; [reflexivity|]);
    cbn [status res_status_json res_json invalid_request_400 puzzle_not_found_400
         incorrect_solution_400 insufficient_funds_503 reward_200 fst snd];
    try (rewrite Hchk; cbn [allowed fst snd]);
    unfold reaches_wallet;
    split_and!; (split; [intros Hst | intros Hrhs]);
    try discriminate Hst; try reflexivity;
    try (try (rewrite Hchk in Hrhs; cbn [allowed fst snd] in Hrhs); by absurd_row).
  - by left.
  - done.
  - right. split; [done|]. intros p' Hp'. congruence.
  - right. split; [done|]. intros p' Hp'. congruence.
  - exists (Invoked getBalances (inl e)), e. split; [set_solver | done].
  - by exists p, b, w1.
  - exists (Invoked (send (activeMint cfg) (puzzleReward cfg)) (inl e)), e.
    split; [set_solver | done].
  - exists (Invoked (getEncodedToken tok) (inl e)), e. split; [set_solver | done].
  - exists (Invoked (QRCode_toDataURL ts) (inl e)), e. split; [set_solver | done].
  - exists (Invoked getBalances (inl e)), e. split; [set_solver | done].
  - split.
    + exists (Invoked (send (activeMint cfg) (puzzleReward cfg)) (inr tok)).
      split; [set_solver | done].
    + intros ev Hev. repeat (apply elem_of_cons in Hev as [->|Hev]; [done|]).
      by apply elem_of_nil in Hev.
Qed.

(** X7.  No route but the solve route calls [send], and the solve route
    calls it only for a request that passed the shape check and the rate
    limiter and carries the expected moves of the puzzle it names, after
    the wallet reported a balance of at least the reward; it calls it once,
    for the reward amount at the active mint. *)
Theorem send_only_for_a_correct_solution
    (cfg : Config) (puzzlesData : list Puzzle) (coerced_lt_1 : jsval -> bool)
    {W : Type} (impl : Collaborator W)
    (ep : Endpoint) (req : Request) (m : RateLimitMap) (w : W) (ev : event) :
  ev ∈ (serve cfg puzzlesData coerced_lt_1 impl ep req m w).2 ->
  is_send (event_call ev) = true ->
  exists now puzzle balances w1,
    ep = POST_api_puzzle_solve now
    /\ reaches_wallet cfg puzzlesData now req m puzzle
    /\ perform impl getBalances w = (inr balances, w1)
    /\ puzzleReward cfg <= balance_or_0 balances (activeMint cfg)
    /\ event_call ev = send (activeMint cfg) (puzzleReward cfg)
    /\ length (filter (fun ev' => is_send (event_call ev') = true)
                 (serve cfg puzzlesData coerced_lt_1 impl ep req m w).2) = 1%nat.
Proof.
  destruct ep as [| | i | | | | now].
  1-6: branch_handler impl; intros Hin Hsend; set_unfold; naive_solver.
  intros Hin Hsend.
  pose proof (serve_solve_run cfg puzzlesData coerced_lt_1 impl now req m w) as Hrun.
  remember (serve cfg puzzlesData coerced_lt_1 impl (POST_api_puzzle_solve now) req m w) as out.
  clear Heqout.
  inversion Hrun; subst out; simpl in *; set_unfold;
    try (destruct Hin as [Hin|Hin]); try naive_solver.
Qed.

(** X8.  Once [send] has succeeded there are two ends.  Either the three
    calls that follow succeed too, and the answer is 200 with, as [token],
    the encoding of the very token [send] returned; or one of them fails,
    and the answer is 500 with the message of that failure and no token,
    although the wallet has sent. *)
Theorem sent_token_is_delivered_or_dropped
    (cfg : Config) (puzzlesData : list Puzzle) (coerced_lt_1 : jsval -> bool)
    {W : Type} (impl : Collaborator W)
    (now : Z) (req : Request) (m : RateLimitMap) (w : W) (ev : event) :
  let out := serve cfg puzzlesData coerced_lt_1 impl (POST_api_puzzle_solve now) req m w in
  ev ∈ out.2 ->
  is_send (event_call ev) = true ->
  event_failed ev = None ->
  (exists balances token tokenString qrCode newBalance,
      out.2 = [Invoked getBalances (inr balances);
               Invoked (send (activeMint cfg) (puzzleReward cfg)) (inr token);
               Invoked (getEncodedToken token) (inr tokenString);
               Invoked (QRCode_toDataURL tokenString) (inr qrCode);
               Invoked getBalances (inr newBalance)]
      /\ out.1.1.1 = inr (reward_200 cfg tokenString qrCode newBalance))
  \/ (exists ev' e resp,
        last out.2 = Some ev'
        /\ event_failed ev' = Some e
        /\ out.1.1.1 = inr resp
        /\ resp = res_status_json 500 (error_body (err_message e))
        /\ get_prop (json resp) "token" = JUndefined).
Proof.
  intros out Hin Hsend Hok.
  pose proof (serve_solve_run cfg puzzlesData coerced_lt_1 impl now req m w) as Hrun.
  fold out in Hrun. clearbody out.
  inversion Hrun as
    [| | | | | | | p b tok e w1 w2 w3 _ _ _ _ _
     | p b tok ts e w1 w2 w3 w4 _ _ _ _ _ _
     | p b tok ts qr e w1 w2 w3 w4 w5 _ _ _ _ _ _ _
     | p b nb tok ts qr w1 w2 w3 w4 w5 _ _ _ _ _ _ _];
    subst out; clear Hrun; cbn [fst snd] in *;
    try (repeat (apply elem_of_cons in Hin as [->|Hin]; [done|]);
         by apply elem_of_nil in Hin).
  - right. by exists (Invoked (getEncodedToken tok) (inl e)), e,
      (res_status_json 500 (error_body (err_message e))).
  - right. by exists (Invoked (QRCode_toDataURL ts) (inl e)), e,
      (res_status_json 500 (error_body (err_message e))).
  - right. by exists (Invoked getBalances (inl e)), e,
      (res_status_json 500 (error_body (err_message e))).
  - left. by exists b, tok, ts, qr, nb.
Qed.

(** X9.  Of the seven routes only the solve route writes the rate-limit
    map, and it writes at most the entry of the requesting client, to the
    clock reading of the check. *)
Theorem only_solve_writes_the_map
    (cfg : Config) (puzzlesData : list Puzzle) (coerced_lt_1 : jsval -> bool)
    {W : Type} (impl : Collaborator W)
    (ep : Endpoint) (req : Request) (m : RateLimitMap) (w : W) :
  let m' := (serve cfg puzzlesData coerced_lt_1 impl ep req m w).1.1.2 in
  match ep with
  | POST_api_puzzle_solve now =>
      (m' = m \/ m' = <[clientIp_of req := now]> m)
      /\ forall ip' : ClientKey, ip' <> clientIp_of req -> m' !! ip' = m !! ip'
  | _ => m' = m
  end.
Proof.
  destruct ep as [| | i | | | | now]; simpl.
  1-6: branch_handler impl; reflexivity.
  pose proof (serve_solve_run cfg puzzlesData coerced_lt_1 impl now req m w) as Hrun.
  remember (serve cfg puzzlesData coerced_lt_1 impl (POST_api_puzzle_solve now) req m w) as out.
  clear Heqout.
  inversion Hrun; subst out; simpl;
    (split; [by auto | intros ip' Hne; by rewrite ?lookup_insert_ne]).
Qed.

(** X10.  The donate route answers 400 exactly when [amount] is falsy or
    below 1, and then calls nothing.  For a number this is exactly when it
    is less than 1, whether it is an integer, a number with a fraction
    ([0.5] is refused, [1.5] is not) or an infinity.  When the route answers
    200, it has asked the active mint for a quote of that very amount and
    rendered the quote's payment request, and the answer carries the quote's
    id, its payment request and the amount. *)
Theorem donate_rejects_amounts_below_1
    (cfg : Config) (puzzlesData : list Puzzle) (coerced_lt_1 : jsval -> bool)
    {W : Type} (impl : Collaborator W) (req : Request) (m : RateLimitMap) (w : W) :
  let amount := get_prop (body req) "amount" in
  let out := serve cfg puzzlesData coerced_lt_1 impl POST_api_donate req m w in
  exists resp,
    out.1.1.1 = inr resp
    /\ (status resp = 400 <-> truthy amount = false \/ js_lt_1 coerced_lt_1 amount = true)
    /\ (forall z : Z, amount = JNum z -> (status resp = 400 <-> z < 1))
    /\ (forall (negative : bool) (significand : positive) (exponent : Z),
          amount = JDec negative significand exponent ->
          (status resp = 400 <->
           negative = true \/ (exponent < 0 /\ Z.pos significand < 10 ^ (- exponent))))
    /\ (forall negative : bool,
          amount = JInf negative -> (status resp = 400 <-> negative = true))
    /\ (status resp = 400 -> out.2 = [])
    /\ (status resp = 200 ->
        exists mintQuote qrCode,
          out.2 = [Invoked (createMintQuote (activeMint cfg) amount) (inr mintQuote);
                   Invoked (QRCode_toDataURL (request mintQuote)) (inr qrCode)]
          /\ get_prop (json resp) "quoteId" = JStr (quote mintQuote)
          /\ get_prop (json resp) "paymentRequest" = JStr (request mintQuote)
          /\ get_prop (json resp) "amount" = amount).
Proof.
  intros amount out. unfold out. run_handler. fold amount.
  assert (forall z : Z, amount = JNum z ->
            (negb (truthy amount) || js_lt_1 coerced_lt_1 amount = true <-> z < 1)) as Hnum.
  { intros z ->. simpl. destruct (Z.eqb_spec z 0) as [->|Hz]; simpl; [done|].
    apply Z.ltb_lt. }
  assert (forall (negative : bool) (significand : positive) (exponent : Z),
            amount = JDec negative significand exponent ->
            (negb (truthy amount) || js_lt_1 coerced_lt_1 amount = true <->
             negative = true \/ (exponent < 0 /\ Z.pos significand < 10 ^ (- exponent))))
    as Hdec.
  { intros negative significand exponent ->. simpl.
    by rewrite orb_true_iff, andb_true_iff, !Z.ltb_lt. }
  assert (forall negative : bool, amount = JInf negative ->
            (negb (truthy amount) || js_lt_1 coerced_lt_1 amount = true <->
             negative = true)) as Hinf.
  { by intros negative ->. }
  destruct (negb (truthy amount) || js_lt_1 coerced_lt_1 amount) eqn:Hbad; run_handler.
  - eexists. split; [reflexivity|]. simpl. split_and!; try done.
    + split; [intros _|done]. apply orb_true_iff in Hbad as [Hbad%negb_true_iff|Hbad]; auto.
    + intros z Hz. split; [intros _|done]. by apply (Hnum z Hz).
    + intros ng sg ex Hz. split; [intros _|done]. by apply (Hdec ng sg ex Hz).
    + intros ng Hz. split; [intros _|done]. by apply (Hinf ng Hz).
  - assert (~ (truthy amount = false \/ js_lt_1 coerced_lt_1 amount = true)) as Hgood.
    { apply orb_false_iff in Hbad as [Hbad%negb_false_iff Hlt]. intros [?|?]; congruence. }
    assert (forall z : Z, amount = JNum z -> ~ z < 1) as Hnum'.
    { intros z Hz Hlt%(Hnum z Hz). done. }
    assert (forall (negative : bool) (significand : positive) (exponent : Z),
              amount = JDec negative significand exponent ->
              ~ (negative = true \/ (exponent < 0 /\ Z.pos significand < 10 ^ (- exponent))))
      as Hdec'.
    { intros ng sg ex Hz Hlt%(Hdec ng sg ex Hz). done. }
    assert (forall negative : bool, amount = JInf negative -> negative <> true) as Hinf'.
    { intros ng Hz Hlt%(Hinf ng Hz). done. }
    destruct (perform impl (createMintQuote (activeMint cfg) amount) w)
      as [[e|mintQuote] w1]; run_handler.
    { eexists. split; [reflexivity|]. simpl. split_and!; try done.
      - intros z Hz. split; [done|]. by intros ?%(Hnum' z Hz).
      - intros ng sg ex Hz. split; [done|]. by intros ?%(Hdec' ng sg ex Hz).
      - intros ng Hz. split; [done|]. by intros ?%(Hinf' ng Hz). }
    destruct (perform impl (QRCode_toDataURL (request mintQuote)) w1)
      as [[e|qrCode] w2]; run_handler.
    { eexists. split; [reflexivity|]. simpl. split_and!; try done.
      - intros z Hz. split; [done|]. by intros ?%(Hnum' z Hz).
      - intros ng sg ex Hz. split; [done|]. by intros ?%(Hdec' ng sg ex Hz).
      - intros ng Hz. split; [done|]. by intros ?%(Hinf' ng Hz). }
    eexists. split; [reflexivity|]. simpl. split_and!; try done.
    + intros z Hz. split; [done|]. by intros ?%(Hnum' z Hz).
    + intros ng sg ex Hz. split; [done|]. by intros ?%(Hdec' ng sg ex Hz).
    + intros ng Hz. split; [done|]. by intros ?%(Hinf' ng Hz).
    + intros _. by exists mintQuote, qrCode.
Qed.

(** X11.  The receive route answers 400 exactly when [token] is falsy
    (absent, null, false, 0 or the empty string), and then calls nothing.
    When it answers 200 it has handed the token, as it came, to the wallet
    and then read the balances, and it reports the active mint's. *)
Theorem receive_requires_a_token
    (cfg : Config) (puzzlesData : list Puzzle) (coerced_lt_1 : jsval -> bool)
    {W : Type} (impl : Collaborator W) (req : Request) (m : RateLimitMap) (w : W) :
  let token := get_prop (body req) "token" in
  let out := serve cfg puzzlesData coerced_lt_1 impl POST_api_receive req m w in
  exists resp,
    out.1.1.1 = inr resp
    /\ (status resp = 400 <-> truthy token = false)
    /\ (status resp = 400 -> out.2 = [])
    /\ (status resp = 200 ->
        exists balances,
          out.2 = [Invoked (receive token) (inr tt); Invoked getBalances (inr balances)]
          /\ get_prop (json resp) "balance" = JNum (balance_or_0 balances (activeMint cfg))).
Proof.
  intros token out. unfold out. run_handler. fold token.
  destruct (truthy token) eqn:Htok; run_handler.
  2:{ eexists. split; [reflexivity|]. simpl. by split_and!. }
  destruct (perform impl (receive token) w) as [[e|[]] w1]; run_handler.
  { eexists. split; [reflexivity|]. simpl. by split_and!. }
  destruct (perform impl getBalances w1) as [[e|balances] w2]; run_handler.
  { eexists. split; [reflexivity|]. simpl. by split_and!. }
  eexists. split; [reflexivity|]. simpl. split_and!; try done.
  intros _. by exists balances.
Qed.

(** X12.  The donation check always answers 200, with [paid] true or
    false.  [paid] is true exactly when the redemption and the balance
    query that follows both succeed.  A failed redemption ends the request
    without a balance query; a redemption that succeeded is still reported
    as [paid: false] when the balance query fails. *)
Theorem donate_check_reports_paid_iff_both_calls_succeed
    (cfg : Config) (puzzlesData : list Puzzle) (coerced_lt_1 : jsval -> bool)
    {W : Type} (impl : Collaborator W) (req : Request) (m : RateLimitMap) (w : W) :
  let out := serve cfg puzzlesData coerced_lt_1 impl GET_api_donate_check req m w in
  let redeem := redeemMintQuote (activeMint cfg) (params_quoteId req) in
  exists resp,
    out.1.1.1 = inr resp
    /\ status resp = 200
    /\ (get_prop (json resp) "paid" = JBool true \/ get_prop (json resp) "paid" = JBool false)
    /\ (get_prop (json resp) "paid" = JBool true <->
        exists w1 balances w2,
          perform impl redeem w = (inr tt, w1)
          /\ perform impl getBalances w1 = (inr balances, w2))
    /\ (forall e w1, perform impl redeem w = (inl e, w1) ->
        out.2 = [Invoked redeem (inl e)])
    /\ (forall w1 e w2,
          perform impl redeem w = (inr tt, w1) ->
          perform impl getBalances w1 = (inl e, w2) ->
          json resp = JObj [(lit "paid", JBool false); (lit "error", JStr (err_message e))]).
Proof.
  intros out redeem. unfold out. run_handler. fold redeem.
  destruct (perform impl redeem w) as [[e|[]] w1] eqn:H1; run_handler.
  { eexists. split; [reflexivity|]. simpl. split_and!; try done; auto.
    - split; [done|]. intros (? & ? & ? & ? & ?). done.
    - by intros ?? [= <- <-]. }
  destruct (perform impl getBalances w1) as [[e|balances] w2] eqn:H2; run_handler.
  { eexists. split; [reflexivity|]. simpl. split_and!; try done; auto.
    - split; [done|]. intros (? & ? & ? & [= <-] & ?). congruence.
    - intros ??? [= <-] ?. congruence. }
  eexists. split; [reflexivity|]. simpl. split_and!; try done; auto.
  - split; [|done]. intros _. by exists w1, balances, w2.
  - intros ??? [= <-] ?. congruence.
Qed.

(** X13.  The puzzle route calls no collaborator and leaves the map alone.
    It answers 200 with the record at the drawn index, its full solution
    included, when the index is inside the database, and 500 otherwise,
    which is what an empty database gives for every draw. *)
Theorem puzzle_route_serves_or_fails_on_index
    (cfg : Config) (puzzlesData : list Puzzle) (coerced_lt_1 : jsval -> bool)
    {W : Type} (impl : Collaborator W)
    (randomIndex : nat) (req : Request) (m : RateLimitMap) (w : W) :
  exists resp,
    serve cfg puzzlesData coerced_lt_1 impl (GET_api_puzzle randomIndex) req m w
    = (inr resp, m, w, [])
    /\ (status resp = 200 <-> (randomIndex < length puzzlesData)%nat)
    /\ (status resp = 500 <-> (length puzzlesData <= randomIndex)%nat)
    /\ (forall puzzle, puzzlesData !! randomIndex = Some puzzle ->
        get_prop (json resp) "id" = JStr (id puzzle)
        /\ get_prop (json resp) "solution" = jsstrings (solution puzzle))
    /\ (puzzlesData = [] -> status resp = 500).
Proof.
  run_handler.
  destruct (puzzlesData !! randomIndex) as [puzzle|] eqn:Hp; run_handler.
  - apply lookup_lt_Some in Hp as Hlt.
    eexists. split; [reflexivity|]. simpl. split_and!.
    + done.
    + split; [done | lia].
    + by intros ? [= <-].
    + intros ->. done.
  - apply lookup_ge_None in Hp as Hge.
    eexists. split; [reflexivity|]. simpl. split_and!.
    + split; [done | lia].
    + done.
    + done.
    + done.
Qed.

(** With distinct ids, looking a record up by its id finds that record. *)
Lemma find_puzzle_unique (puzzlesData : list Puzzle) (i : nat) (puzzle : Puzzle) :
  NoDup (id <$> puzzlesData) ->
  puzzlesData !! i = Some puzzle ->
  find_puzzle puzzlesData (JStr (id puzzle)) = Some puzzle.
Proof.
  intros Hnd Hi. unfold find_puzzle.
  destruct (List.find _ puzzlesData) as [p'|] eqn:Hfind.
  - apply find_some in Hfind as [Hin Heq]. apply bool_decide_eq_true in Heq.
    apply list_elem_of_In, list_elem_of_lookup in Hin as [j Hj].
    assert (i = j) as ->; [|congruence].
    eapply NoDup_lookup; [exact Hnd | |].
    + by rewrite list_lookup_fmap, Hi.
    + rewrite list_lookup_fmap, Hj. simpl. by rewrite Heq.
  - assert (In puzzle puzzlesData) as Hin
      by (apply list_elem_of_In, list_elem_of_lookup; eauto).
    pose proof (find_none _ _ Hfind puzzle Hin) as Hno.
    simpl in Hno. by rewrite bool_decide_eq_true_2 in Hno.
Qed.

(** X14.  From the puzzle route to the solve route.  When the ids of the
    database are distinct, a request that names a record of the database
    (with a non-empty id) and carries the elements at the odd indices of
    its solution passes every check in front of the wallet, provided the
    rate limiter lets it through. *)
Theorem served_puzzle_is_accepted_with_its_odd_moves
    (cfg : Config) (puzzlesData : list Puzzle) (now : Z) (req : Request) (m : RateLimitMap)
    (i : nat) (puzzle : Puzzle) :
  NoDup (id <$> puzzlesData) ->
  puzzlesData !! i = Some puzzle ->
  id puzzle <> [] ->
  get_prop (body req) "puzzleId" = JStr (id puzzle) ->
  get_prop (body req) "moves" = jsstrings (userMovesInSolution puzzle) ->
  allowed (checkRateLimit cfg now (clientIp_of req) m).1 = true ->
  reaches_wallet cfg puzzlesData now req m puzzle.
Proof.
  intros Hnd Hi Hid Hpid Hmoves Hal. unfold reaches_wallet, well_formed.
  rewrite Hpid, Hmoves. split_and!; try done.
  - simpl. by destruct (id puzzle).
  - by eapply find_puzzle_unique.
  - by apply isCorrect_iff_equal.
Qed.

(** X15.  The active mint is the main mint only when [ACTIVE_MODE] is
    exactly [main]; unset, empty or set to anything else, the server runs
    on the test mint. *)
Theorem only_main_selects_the_main_mint (ACTIVE_MODE : option jsstring) :
  (ACTIVE_MODE = Some (lit "main") ->
   activeMint (config ACTIVE_MODE) = lit "https://mint.minibits.cash/Bitcoin")
  /\ (ACTIVE_MODE <> Some (lit "main") ->
      activeMint (config ACTIVE_MODE) = lit "https://nofees.testnut.cashu.space").
Proof.
  split.
  - by intros ->.
  - intros Hne. unfold activeMint. rewrite bool_decide_eq_false_2; [done|].
    destruct ACTIVE_MODE as [[|c s]|]; simpl; [done| |done]. congruence.
Qed.

(** Filtering on odd indices keeps half of the elements. *)
Lemma filter_from_odd_length {A : Type} (arr : list A) (index : nat) :
  length (filter_from (fun _ i => (i mod 2 =? 1)%nat) index arr)
  = ((length arr + (if Nat.odd index then 1 else 0)) / 2)%nat.
Proof.
  revert index. induction arr as [|x arr IH]; intros index.
  - simpl. by destruct (Nat.odd index).
  - cbn [filter_from length]. rewrite mod_2_eqb_1_odd.
    specialize (IH (S index)). rewrite Nat.odd_succ, <- Nat.negb_odd in IH.
    destruct (Nat.odd index); cbn [negb length] in *; rewrite IH.
    + replace (S (length arr) + 1)%nat with (length arr + 0 + 1 * 2)%nat by lia.
      rewrite Nat.div_add by done. lia.
    + f_equal. lia.
Qed.

(** X16.  The expected moves are half as many as the solution has moves,
    rounded down; so the empty list of moves is the correct answer exactly
    to the puzzles whose solution has at most one move. *)
Theorem empty_submission_correct_iff_short_solution (puzzle : Puzzle) :
  length (userMovesInSolution puzzle) = (length (solution puzzle) / 2)%nat
  /\ (isCorrect (JArr []) puzzle = true <-> (length (solution puzzle) <= 1)%nat).
Proof.
  assert (length (userMovesInSolution puzzle) = (length (solution puzzle) / 2)%nat) as Hlen.
  { unfold userMovesInSolution, Array_filter. rewrite filter_from_odd_length. simpl.
    by rewrite Nat.add_0_r. }
  split; [done|]. rewrite isCorrect_array_iff.
  destruct (userMovesInSolution puzzle) as [|s l] eqn:Hu; cbn [length] in Hlen.
  - split; [intros _|done]. symmetry in Hlen. apply Nat.div_small_iff in Hlen; lia.
  - split; [done|]. intros Hshort. rewrite Nat.div_small in Hlen by lia. done.
Qed.

(** * Properties of the start-up *)

(** Unfolding the start-up down to its steps. *)
Ltac run_boot :=
  unfold launch, main, start, initWallet, boot_bind, boot_try, boot_call, boot_log, boot_ret;
  cbn [boot_world boot_calls boot_console app fst snd].

(** Taking the next step of the start-up, whatever its outcome. *)
Ltac step_boot env :=
  match goal with
  | |- context [startup_perform env ?c ?w] =>
      let o := fresh "o" in
      let w' := fresh "w" in
      let H := fresh "Hcall" in
      destruct (startup_perform env c w) as [o w'] eqn:H;
      cbn [boot_world boot_calls boot_console app fst snd]
  end.



(** * The further properties at work *)


Lemma served_puzzle_is_accepted_with_its_odd_moves_witness :
  reaches_wallet (config None) [example_puzzle] 1000
    (solve_request (JStr (lit "00sHx")) (jsstrings [lit "Nf3"; lit "Bb5"])) ∅ example_puzzle.
Proof.
  apply (served_puzzle_is_accepted_with_its_odd_moves (config None) [example_puzzle] 1000
           (solve_request (JStr (lit "00sHx")) (jsstrings [lit "Nf3"; lit "Bb5"])) ∅
           0%nat example_puzzle).
  - simpl. apply NoDup_singleton.
  - reflexivity.
  - discriminate.
  - reflexivity.
  - reflexivity.
  - reflexivity.
Defined.

Lemma send_only_for_a_correct_solution_witness :
  let cfg := config None in
  let pot : gmap jsstring Z := {[ activeMint cfg := 50 ]} in
  let req := solve_request (JStr (lit "00sHx")) (jsstrings [lit "Nf3"; lit "Bb5"]) in
  let ev := Invoked (send (activeMint cfg) (puzzleReward cfg))
              (inr (JObj [(lit "mint", JStr (activeMint cfg));
                          (lit "amount", JNum (puzzleReward cfg))])) in
  exists now puzzle balances w1,
    POST_api_puzzle_solve 1000 = POST_api_puzzle_solve now
    /\ reaches_wallet cfg [example_puzzle] now req ∅ puzzle
    /\ perform pot_wallet getBalances pot = (inr balances, w1)
    /\ puzzleReward cfg <= balance_or_0 balances (activeMint cfg)
    /\ event_call ev = send (activeMint cfg) (puzzleReward cfg)
    /\ length (filter (fun ev' => is_send (event_call ev') = true)
                 (serve cfg [example_puzzle] no_coercion pot_wallet
                    (POST_api_puzzle_solve 1000) req ∅ pot).2) = 1%nat.
Proof.
  intros cfg pot req ev.
  apply (send_only_for_a_correct_solution cfg [example_puzzle] no_coercion pot_wallet
           (POST_api_puzzle_solve 1000) req ∅ pot ev).
  - vm_compute. apply list_elem_of_further, list_elem_of_here.
  - reflexivity.
Defined.

Lemma sent_token_is_delivered_or_dropped_witness :
  let cfg := config None in
  let pot : gmap jsstring Z := {[ activeMint cfg := 50 ]} in
  let req := solve_request (JStr (lit "00sHx")) (jsstrings [lit "Nf3"; lit "Bb5"]) in
  let out := serve cfg [example_puzzle] no_coercion pot_wallet
               (POST_api_puzzle_solve 1000) req ∅ pot in
  (exists balances token tokenString qrCode newBalance,
      out.2 = [Invoked getBalances (inr balances);
               Invoked (send (activeMint cfg) (puzzleReward cfg)) (inr token);
               Invoked (getEncodedToken token) (inr tokenString);
               Invoked (QRCode_toDataURL tokenString) (inr qrCode);
               Invoked getBalances (inr newBalance)]
      /\ out.1.1.1 = inr (reward_200 cfg tokenString qrCode newBalance))
  \/ (exists ev' e resp,
        last out.2 = Some ev'
        /\ event_failed ev' = Some e
        /\ out.1.1.1 = inr resp
        /\ resp = res_status_json 500 (error_body (err_message e))
        /\ get_prop (json resp) "token" = JUndefined).
Proof.
  intros cfg pot req out.
  apply (sent_token_is_delivered_or_dropped cfg [example_puzzle] no_coercion pot_wallet
           1000 req ∅ pot
           (Invoked (send (activeMint cfg) (puzzleReward cfg))
              (inr (JObj [(lit "mint", JStr (activeMint cfg));
                          (lit "amount", JNum (puzzleReward cfg))])))).
  - vm_compute. apply list_elem_of_further, list_elem_of_here.
  - reflexivity.
  - reflexivity.
Defined.

Lemma only_main_selects_the_main_mint_witness :
  activeMint (config (Some (lit "MAIN"))) = lit "https://nofees.testnut.cashu.space".
Proof.
  apply (proj2 (only_main_selects_the_main_mint (Some (lit "MAIN")))). discriminate.
Defined.

Lemma solve_status_table_witness :
  let req := solve_request (JStr (lit "00sHx")) (jsstrings [lit "Nf3"; lit "Bb5"]) in
  exists resp,
    (serve (config None) [example_puzzle] no_coercion pot_wallet (POST_api_puzzle_solve 4000)
       req {[ example_ip := 1000 ]} ∅).1.1.1 = inr resp
    /\ status resp = 429.
Proof.
  intros req.
  destruct (solve_status_table (config None) [example_puzzle] no_coercion pot_wallet 4000
              req {[ example_ip := 1000 ]} ∅) as (resp & Hresp & _ & H429 & _).
  exists resp. split; [exact Hresp|].
  apply H429. split; [split; reflexivity | reflexivity].
Defined.

Lemma only_solve_writes_the_map_witness :
  let req := solve_request (JStr (lit "00sHx")) (jsstrings [lit "Nf3"; lit "Bb5"]) in
  let other : ClientKey := Some (lit "198.51.100.4") in
  let m : RateLimitMap := {[ other := 500 ]} in
  (serve (config None) [example_puzzle] no_coercion pot_wallet (POST_api_puzzle_solve 1000)
     req m ∅).1.1.2 !! other = m !! other.
Proof.
  intros req other m.
  apply (proj2 (only_solve_writes_the_map (config None) [example_puzzle] no_coercion pot_wallet
                  (POST_api_puzzle_solve 1000) req m ∅) other).
  discriminate.
Defined.

Lemma donate_rejects_amounts_below_1_witness :
  exists resp,
    (serve (config None) [] no_coercion pot_wallet POST_api_donate
       (donate_request (JDec false 5 (-1))) ∅ ∅).1.1.1 = inr resp
    /\ status resp = 400.
Proof.
  destruct (donate_rejects_amounts_below_1 (config None) [] no_coercion pot_wallet
              (donate_request (JDec false 5 (-1))) ∅ ∅) as (resp & Hresp & _ & _ & Hdec & _).
  exists resp. split; [exact Hresp|].
  apply (Hdec false 5%positive (-1)); [reflexivity | right; simpl; lia].
Defined.

Lemma receive_requires_a_token_witness :
  exists resp,
    (serve (config None) [] no_coercion pot_wallet POST_api_receive
       (donate_request (JNum 5)) ∅ ∅).1.1.1 = inr resp
    /\ status resp = 400.
Proof.
  destruct (receive_requires_a_token (config None) [] no_coercion pot_wallet
              (donate_request (JNum 5)) ∅ ∅) as (resp & Hresp & H400 & _).
  exists resp. split; [exact Hresp|]. apply H400. reflexivity.
Defined.

Lemma donate_check_reports_paid_iff_both_calls_succeed_witness :
  let cfg := config None in
  let req := donate_request JUndefined in
  (serve cfg [] no_coercion pot_wallet GET_api_donate_check req ∅ ∅).2
  = [Invoked (redeemMintQuote (activeMint cfg) (params_quoteId req))
       (inl {| err_message := lit "Quote not paid" |})].
Proof.
  intros cfg req.
  destruct (donate_check_reports_paid_iff_both_calls_succeed cfg [] no_coercion pot_wallet
              req ∅ ∅) as (resp & _ & _ & _ & _ & Hfail & _).
  apply (Hfail {| err_message := lit "Quote not paid" |} ∅). reflexivity.
Defined.

Lemma puzzle_route_serves_or_fails_on_index_witness :
  exists resp,
    serve (config None) [] no_coercion pot_wallet (GET_api_puzzle 0)
      (donate_request JUndefined) ∅ ∅
    = (inr resp, ∅, ∅, [])
    /\ status resp = 500.
Proof.
  destruct (puzzle_route_serves_or_fails_on_index (config None) [] no_coercion pot_wallet
              0%nat (donate_request JUndefined) ∅ ∅) as (resp & Hresp & _ & _ & _ & Hempty).
  exists resp. split; [exact Hresp|]. apply Hempty. reflexivity.
Defined.

Lemma empty_submission_correct_iff_short_solution_witness :
  isCorrect (JArr []) one_move_puzzle = true.
Proof.
  apply (proj2 (empty_submission_correct_iff_short_solution one_move_puzzle)).
  simpl. lia.
Defined.

